(** * Aquarelle AI (paintapp): capture-and-transform pipeline

    A shallow embedding of the three TypeScript sources of the repository:

    - [src/services/geminiService.ts]: [resizeImage], [transformToWatercolor];
    - [src/App.tsx]: the application controller ([handleCapture], [reset]);
    - [src/components/Camera.tsx]: the capture surface ([stopStream],
      [startCamera], the activation effect, [capturePhoto]).

    JavaScript numbers are binary64 floating-point values; the few products
    and quotients the normalizer computes are modelled by exact rationals
    rounded to a 53-bit significand, ties to even. *)

From Stdlib Require Import ZArith QArith Qabs Qround Qpower Lia Lqa List String Ascii Bool.
From Stdlib Require Floats.
From Stdlib Require DecimalString DecimalN.
From stdpp Require Import base gmap.
Import ListNotations.

Local Open Scope Z_scope.

(* ================================================================== *)
(** * JavaScript numbers *)
(* ================================================================== *)

Module Number.

(** A rational rounded to the nearest integer, ties to the even one. *)
Definition rne (q : Q) : Z :=
  let a := Qnum q in
  let b := Zpos (Qden q) in
  let f := a / b in
  match 2 * (a mod b) ?= b with
  | Lt => f
  | Gt => f + 1
  | Eq => if Z.even f then f else f + 1
  end.

(** Binary exponent of a positive rational: the [e] with
    [2^e <= x < 2^(e+1)]. *)
Definition ilog2 (x : Q) : Z :=
  let k := Z.log2 (Qnum x) - Z.log2 (Zpos (Qden x)) in
  if Qle_bool (2 ^ k) x then k else k - 1.

(** Rounding to the nearest value with a 53-bit significand, ties to even:
    the value is scaled into [[2^52, 2^53)], rounded to an integer and
    scaled back.  The exponent range of binary64 (overflow, subnormals) is
    not modelled: the normalizer only meets values between [2^-32] and
    [2^52]. *)
Definition round53 (x : Q) : Q :=
  match Qnum x with
  | Z0 => 0
  | _ => let s := (ilog2 (Qabs x) - 52)%Z in
         inject_Z (rne (x / 2 ^ s)) * 2 ^ s
  end%Q.

(** Half the distance between 1 and the next larger value. *)
Definition eps : Q := 1 # (2 ^ 53).

(** IEEE 754 multiplication and division are correctly rounded. *)
Definition fmul (a b : Q) : Q := round53 (a * b)%Q.
Definition fdiv (a b : Q) : Q := round53 (a / b)%Q.

(** The rational a finite binary64 value stands for (0 for the others),
    to compare the model with the machine's arithmetic. *)
Definition binary64ToQ (f : PrimFloat.float) : Q :=
  match FloatOps.Prim2SF f with
  | SpecFloat.S754_finite negative m e =>
      ((if negative then -1 else 1) * inject_Z (Zpos m) * 2 ^ e)%Q
  | _ => 0%Q
  end.

(** [a > b] on numbers. *)
Definition gt (a b : Q) : bool := negb (Qle_bool a b).

(** Conversion of a number to a Web IDL [unsigned long]: the integer part
    (truncation towards zero), modulo [2^32]. *)
Definition toUnsignedLong (x : Q) : Z :=
  Z.quot (Qnum x) (Zpos (Qden x)) mod 2 ^ 32.

(** Assignment of a number to [canvas.width] or [canvas.height].  The
    attribute reflects an [unsigned long] limited to non-negative numbers:
    the number is converted, and a converted value above [2^31 - 1] is
    replaced by the attribute's default (300 for the width, 150 for the
    height). *)
Definition setCanvasDimension (default : Z) (x : Q) : Z :=
  let n := toUnsignedLong x in
  if n <=? 2 ^ 31 - 1 then n else default.

End Number.

(* ================================================================== *)
(** * Image normalizer: the dimensions computed by [resizeImage] *)
(* ================================================================== *)

Module Normalizer.
Import Number.

(** Lines 15-31 of [geminiService.ts]: [img.width], [img.height] are
    integers; the result is the pair [(canvas.width, canvas.height)]. *)
Definition resizeDims (imgWidth imgHeight maxDimension : Z) : Z * Z :=
  let width := inject_Z imgWidth in
  let height := inject_Z imgHeight in
  let maxD := inject_Z maxDimension in
  let '(width, height) :=
    if gt width height then
      if gt width maxD
      then (maxD, fmul height (fdiv maxD width))
      else (width, height)
    else
      if gt height maxD
      then (fmul width (fdiv maxD height), maxD)
      else (width, height) in
  (setCanvasDimension 300 width, setCanvasDimension 150 height).

End Normalizer.


(* ================================================================== *)
(** * JavaScript values, strings and promises *)
(* ================================================================== *)

Module Js.
Local Open Scope string_scope.

(** A thrown value: an object, as [new Error(...)], the SDK's errors and
    those of [fetch] are.  The code only ever reads its [message]
    ([error.message?.includes], [err.message || ...]); a thrown value
    without that property has [message = None]. *)
Record Error := mkError { message : option string }.

(** [new Error(msg)] *)
Definition newError (msg : string) : Error := {| message := Some msg |}.

(** Truthiness of a string and of a [string | undefined]. *)
Definition truthy (s : string) : bool :=
  match s with EmptyString => false | String _ _ => true end.

Definition truthyOpt (o : option string) : bool :=
  match o with Some s => truthy s | None => false end.

(** [s.includes(sub)] *)
Fixpoint includes (s sub : string) : bool :=
  String.prefix sub s ||
  match s with
  | EmptyString => false
  | String _ rest => includes rest sub
  end.

(** [sub] occurs in [s]: what [includes] is meant to decide. *)
Definition occursIn (sub s : string) : Prop :=
  exists before after, s = before ++ sub ++ after.

(** [s.split(sep)] for a one-character separator. *)
Fixpoint split (sep : ascii) (s : string) : list string :=
  match s with
  | EmptyString => [EmptyString]
  | String ch rest =>
      if Ascii.eqb ch sep then EmptyString :: split sep rest
      else match split sep rest with
           | piece :: pieces => String ch piece :: pieces
           | [] => [String ch EmptyString]
           end
  end.

(** State of a promise as its awaiter sees it: it may also never settle. *)
Inductive Promise (A : Type) : Type :=
| Fulfilled (value : A)
| Rejected (reason : Error)
| Pending.
Arguments Fulfilled {A} value.
Arguments Rejected {A} reason.
Arguments Pending {A}.

End Js.

(* ================================================================== *)
(** * Transformation client ([services/geminiService.ts]) *)
(* ================================================================== *)

Module GeminiService.
Import Js.
Local Open Scope string_scope.

(** Content parts of the generative-model SDK. *)
Record Blob := { data : option string; mimeType : option string }.
Record Part := { inlineData : option Blob; text : option string }.
Record Content := { parts : option (list Part) }.
Record Candidate := { content : option Content }.
Record GenerateContentResponse := { candidates : option (list Candidate) }.
Record Request := { model : string; contents : list Part }.

(** The offscreen canvas of [resizeImage] when it is encoded. *)
Record Canvas := { canvasWidth : Z; canvasHeight : Z; drawn : option string }.

(** What the code cannot decide: the configured key, the browser's image
    decoder and encoder, and the remote model. *)
Record World := {
  API_KEY : option string;
  (** [img.src = s]: [Some (width, height)] when the image loads
      ([onload] fires), [None] when it does not. *)
  decode : string -> option (Z * Z);
  getContext2d : bool;
  toDataURL : Canvas -> string;
  (** [ai.models.generateContent]: a response or a rejection. *)
  generateContent : Request -> GenerateContentResponse + Error
}.

(** Observable effects, in the order they happen. *)
Inductive Effect :=
| LoadImage (src : string)
| RemoteCall (req : Request)
| ConsoleError (e : Error).

(** Asynchronous computations: a promise state and the effects so far. *)
Definition Async (A : Type) : Type := list Effect -> Promise A * list Effect.

Definition pure {A} (a : A) : Async A := fun tr => (Fulfilled a, tr).
Definition throw {A} (e : Error) : Async A := fun tr => (Rejected e, tr).
Definition never {A} : Async A := fun tr => (Pending, tr).
Definition perform (ev : Effect) : Async unit :=
  fun tr => (Fulfilled tt, (tr ++ [ev])%list).

(** [await]: a rejection or a promise that never settles stops the caller. *)
Definition await {A B} (m : Async A) (k : A -> Async B) : Async B :=
  fun tr =>
    match m tr with
    | (Fulfilled a, tr') => k a tr'
    | (Rejected e, tr') => (Rejected e, tr')
    | (Pending, tr') => (Pending, tr')
    end.

(** [try { body } catch (error) { handler }] *)
Definition tryCatch {A} (body : Async A) (handler : Error -> Async A) : Async A :=
  fun tr =>
    match body tr with
    | (Rejected e, tr') => handler e tr'
    | settled => settled
    end.

Notation "x <~ m ;; k" := (await m (fun x => k))
  (at level 100, m at next level, right associativity).

(** [resizeImage]: the promise is resolved from [img.onload] only. *)
Definition resizeImage (w : World) (base64Str : string) (maxDimension : Z)
  : Async string :=
  _ <~ perform (LoadImage base64Str) ;;
  match decode w base64Str with
  | Some (imgWidth, imgHeight) =>
      let '(width, height) := Normalizer.resizeDims imgWidth imgHeight maxDimension in
      pure (toDataURL w {| canvasWidth := width; canvasHeight := height;
                           drawn := if getContext2d w then Some base64Str else None |})
  | None => never
  end.

Definition prompt : string :=
  "Transform this photo into a museum-quality watercolor painting. Use professional techniques: wet-on-wet blending, visible paper texture (cold press), delicate pencil under-sketching, and vibrant pigment bleeds. Maintain the exact composition and lighting of the original photo. The final result must look like a physical painting on high-quality 300gsm watercolor paper.".

Definition msgNoKey : string :=
  "Gemini API Key is missing. Please configure it in the Secrets panel.".
Definition msgEmpty : string :=
  "The artist encountered an error. Please try another shot.".
Definition msgSafety : string :=
  "This image couldn't be processed due to safety guidelines.".
Definition msgNetwork : string :=
  "Network error. Please check your connection and try again.".

(** [response.candidates?.[0]?.content?.parts || []] *)
Definition responseParts (response : GenerateContentResponse) : list Part :=
  match candidates response with
  | Some (first :: _) =>
      match content first with
      | Some c => match parts c with Some ps => ps | None => [] end
      | None => []
      end
  | _ => []
  end.

(** A template literal prints an absent value as [undefined]. *)
Definition interpolate (o : option string) : string :=
  match o with Some s => s | None => "undefined" end.

(** The [for ... of] loop with its [break] (lines 68-74). *)
Fixpoint scanParts (ps : list Part) (transformedUrl : string) : string :=
  match ps with
  | [] => transformedUrl
  | part :: rest =>
      match inlineData part with
      | Some blob => "data:image/png;base64," ++ interpolate (data blob)
      | None => scanParts rest transformedUrl
      end
  end.

Definition callGenerateContent (w : World) (req : Request)
  : Async GenerateContentResponse :=
  _ <~ perform (RemoteCall req) ;;
  match generateContent w req with
  | inl response => pure response
  | inr e => throw e
  end.

(** [error.message?.includes("Safety")] *)
Definition mentionsSafety (error : Error) : bool :=
  match message error with
  | Some m => includes m "Safety"
  | None => false
  end.

(** [optimizedImage.split(',')[1]] *)
Definition payload (optimizedImage : string) : option string :=
  nth_error (split "," optimizedImage) 1.

(** The argument of [generateContent] (lines 51-66). *)
Definition buildRequest (imageData : option string) : Request :=
  {| model := "gemini-2.5-flash-image";
     contents :=
       [ {| inlineData := Some {| data := imageData;
                                  mimeType := Some "image/jpeg" |};
            text := None |};
         {| inlineData := None; text := Some prompt |} ] |}.

Definition transformToWatercolor (w : World) (base64Image : string)
  : Async string :=
  if negb (truthyOpt (API_KEY w)) then throw (newError msgNoKey)
  else
    optimizedImage <~ resizeImage w base64Image 1024 ;;
    let imageData := payload optimizedImage in
    tryCatch
      (response <~ callGenerateContent w (buildRequest imageData) ;;
       let transformedUrl := scanParts (responseParts response) "" in
       if negb (truthy transformedUrl) then throw (newError msgEmpty)
       else pure transformedUrl)
      (fun error =>
         _ <~ perform (ConsoleError error) ;;
         if mentionsSafety error then throw (newError msgSafety)
         else throw (newError msgNetwork)).

(** What a part looks like to the scan. *)
Definition textPart (t : string) : Part :=
  {| inlineData := None; text := Some t |}.
Definition imagePart (d : string) : Part :=
  {| inlineData := Some {| data := Some d; mimeType := Some "image/png" |};
     text := None |}.

Definition respond (ps : list Part) : GenerateContentResponse :=
  {| candidates := Some [ {| content := Some {| parts := Some ps |} |} ] |}.

(** Sample worlds: a browser that decodes every image as 4032 by 3024 and
    encodes every canvas to the same JPEG, with a configurable key and
    remote model. *)
Definition sampleWorld (apiKey : option string)
           (remote : Request -> GenerateContentResponse + Error) : World :=
  {| API_KEY := apiKey;
     decode := fun _ => Some (4032, 3024);
     getContext2d := true;
     toDataURL := fun _ => "data:image/jpeg;base64,/9j/4AAQ";
     generateContent := remote |}.

(** The same browser with a decoder that rejects every image. *)
Definition undecodableWorld : World :=
  {| API_KEY := Some "key";
     decode := fun _ => None;
     getContext2d := true;
     toDataURL := fun _ => "data:image/jpeg;base64,/9j/4AAQ";
     generateContent := fun _ => inl (respond [imagePart "iVBORw0KGgo="]) |}.

(** Whether an effect is a call of the remote model. *)
Definition isRemoteCall (ev : Effect) : bool :=
  match ev with RemoteCall _ => true | _ => false end.

End GeminiService.

(* ================================================================== *)
(** * Application controller ([App.tsx]) *)
(* ================================================================== *)

Module App.
Import Js.
Local Open Scope string_scope.

Inductive AppState := idle | camera | processing | preview.

(** The [useState] cells of [App]. *)
Record Model := {
  state : AppState;
  originalImage : option string;
  transformedImage : option string;
  error : option string;
  showComparison : bool
}.

Definition initial : Model :=
  {| state := idle; originalImage := None; transformedImage := None;
     error := None; showComparison := false |}.

Definition setState (v : AppState) (m : Model) : Model :=
  {| state := v; originalImage := originalImage m;
     transformedImage := transformedImage m; error := error m;
     showComparison := showComparison m |}.
Definition setOriginalImage (v : option string) (m : Model) : Model :=
  {| state := state m; originalImage := v;
     transformedImage := transformedImage m; error := error m;
     showComparison := showComparison m |}.
Definition setTransformedImage (v : option string) (m : Model) : Model :=
  {| state := state m; originalImage := originalImage m;
     transformedImage := v; error := error m;
     showComparison := showComparison m |}.
Definition setError (v : option string) (m : Model) : Model :=
  {| state := state m; originalImage := originalImage m;
     transformedImage := transformedImage m; error := v;
     showComparison := showComparison m |}.
Definition setShowComparison (v : bool) (m : Model) : Model :=
  {| state := state m; originalImage := originalImage m;
     transformedImage := transformedImage m; error := error m;
     showComparison := v |}.

(** [handleCapture] up to its [await] (lines 32-34). *)
Definition handleCapture_start (imageData : string) (m : Model) : Model :=
  setError None (setState processing (setOriginalImage (Some imageData) m)).

(** ... after the awaited call is fulfilled (lines 38-39) ... *)
Definition handleCapture_then (result : string) (m : Model) : Model :=
  setState preview (setTransformedImage (Some result) m).

Definition msgFallback : string :=
  "Failed to transform image. Please try again.".

(** [err.message || "Failed to transform image. Please try again."] *)
Definition userMessage (err : Error) : string :=
  match message err with
  | Some m => if truthy m then m else msgFallback
  | None => msgFallback
  end.

(** ... and in its [catch] (lines 48-49). *)
Definition handleCapture_catch (err : Error) (m : Model) : Model :=
  setState camera (setError (Some (userMessage err)) m).

(** [handleCapture] from the call to the point where the awaited promise
    has settled, if it does. *)
Definition handleCapture (outcome : Promise string) (imageData : string)
           (m : Model) : Model :=
  let m1 := handleCapture_start imageData m in
  match outcome with
  | Fulfilled result => handleCapture_then result m1
  | Rejected err => handleCapture_catch err m1
  | Pending => m1
  end.

Definition reset (m : Model) : Model :=
  setShowComparison false
    (setState camera (setTransformedImage None (setOriginalImage None m))).

(** The controller together with the [handleCapture] calls that are
    suspended at their [await], each with the image it was called on, and
    with what is on the screen.

    The four views are the children of [<AnimatePresence mode="wait">]
    (line 89) and each has an [exit] animation (lines 95, 130, 155, 189):
    when a render selects another view, the mounted one stays on the
    screen as it was last rendered, handlers included, until its exit
    animation is over; only then is the selected view mounted.  [screen] is
    the model as rendered by the mounted view: the current model while that
    view is the selected one, the model of its last render while it is
    leaving. *)
Record System := { model : Model; inflight : list string; screen : Model }.

Definition start : System :=
  {| model := initial; inflight := []; screen := initial |}.

(** What can happen: a click on the mounted view, the settling of a
    suspended call, the end of an exit animation. *)
Inductive Event :=
| OpenStudio                       (* idle view, line 114 *)
| Back                             (* camera view, line 136 *)
| Capture (imageData : string)     (* camera view: [onCapture], line 133 *)
| Settled (imageData : string) (outcome : string + Error)
| Reset                            (* preview view, line 219 *)
| ToggleComparison                 (* preview view, line 226 *)
| ExitComplete.                    (* the leaving view is gone *)

Definition isState (v : AppState) (m : Model) : bool :=
  match v, state m with
  | idle, idle | camera, camera | processing, processing | preview, preview => true
  | _, _ => false
  end.

(** [state === 'preview' && transformedImage] *)
Definition previewRendered (m : Model) : bool :=
  isState preview m && truthyOpt (transformedImage m).

(** The view a render selects (lines 90, 125, 150, 184), if any. *)
Definition viewOf (m : Model) : option AppState :=
  match state m with
  | preview => if truthyOpt (transformedImage m) then Some preview else None
  | v => Some v
  end.

Definition sameView (a b : option AppState) : bool :=
  match a, b with
  | Some idle, Some idle | Some camera, Some camera
  | Some processing, Some processing | Some preview, Some preview
  | None, None => true
  | _, _ => false
  end.

(** The screen after a render with the model [m']: the mounted view is
    rendered anew when it is the selected one (again), it is kept as it was
    when another is selected; with nothing mounted the selected view mounts
    at once. *)
Definition present (m' : Model) (mounted : Model) : Model :=
  match viewOf mounted with
  | None => m'
  | Some _ => if sameView (viewOf m') (viewOf mounted) then m' else mounted
  end.

(** A handler has run: the state cells it wrote, the calls now suspended,
    and the render that follows. *)
Definition render (m' : Model) (calls : list string) (s : System) : System :=
  {| model := m'; inflight := calls; screen := present m' (screen s) |}.

Fixpoint removeFirst (x : string) (l : list string) : list string :=
  match l with
  | [] => []
  | y :: rest => if String.eqb x y then rest else y :: removeFirst x rest
  end.

(** One event.  A click is possible on the view that is on the screen;
    its handler writes the state cells through the setters (so on the
    current model), and reads the values of its own render
    ([!showComparison], line 226).  [handleCapture] has no guard of its
    own: it runs whenever the camera view calls [onCapture].  A suspended
    call can settle at any time, whatever is in flight besides it. *)
Definition step (ev : Event) (s : System) : option System :=
  let m := model s in
  let view := screen s in
  match ev with
  | OpenStudio =>
      if isState idle view
      then Some (render (setState camera m) (inflight s) s)
      else None
  | Back =>
      if isState camera view
      then Some (render (setState idle m) (inflight s) s)
      else None
  | Capture imageData =>
      if isState camera view
      then Some (render (handleCapture_start imageData m)
                        (inflight s ++ [imageData])%list s)
      else None
  | Settled imageData outcome =>
      if existsb (String.eqb imageData) (inflight s)
      then Some (render (match outcome with
                         | inl result => handleCapture_then result m
                         | inr err => handleCapture_catch err m
                         end)
                        (removeFirst imageData (inflight s)) s)
      else None
  | Reset =>
      if previewRendered view
      then Some (render (reset m) (inflight s) s)
      else None
  | ToggleComparison =>
      if previewRendered view
      then Some (render (setShowComparison (negb (showComparison view)) m)
                        (inflight s) s)
      else None
  | ExitComplete =>
      Some {| model := m; inflight := inflight s; screen := m |}
  end.

(** [reachable history s]: [s] is reached from [start] by the events of
    [history], the most recent first. *)
Inductive reachable : list Event -> System -> Prop :=
| reach_start : reachable [] start
| reach_step history s ev s' :
    reachable history s -> step ev s = Some s' -> reachable (ev :: history) s'.

(** The state a history leads to, if its events can happen in that
    order. *)
Fixpoint replay (history : list Event) : option System :=
  match history with
  | [] => Some start
  | ev :: older =>
      match replay older with
      | Some s => step ev s
      | None => None
      end
  end.

(** Clicks, as opposed to what happens by itself. *)
Definition isClick (ev : Event) : bool :=
  match ev with
  | Settled _ _ | ExitComplete => false
  | _ => true
  end.

(** [calm history s]: as [reachable], for the sessions in which nobody
    clicks on a view that is leaving the screen: every click meets the
    view of the current model. *)
Inductive calm : list Event -> System -> Prop :=
| calm_start : calm [] start
| calm_step history s ev s' :
    calm history s ->
    (isClick ev = true -> screen s = model s) ->
    step ev s = Some s' ->
    calm (ev :: history) s'.

(** The image of the most recent capture. *)
Fixpoint lastCaptured (history : list Event) : option string :=
  match history with
  | [] => None
  | Capture imageData :: _ => Some imageData
  | _ :: older => lastCaptured older
  end.

(** The most recent fulfilled transformation: its input and its result. *)
Fixpoint lastFulfilled (history : list Event) : option (string * string) :=
  match history with
  | [] => None
  | Settled imageData (inl result) :: _ => Some (imageData, result)
  | _ :: older => lastFulfilled older
  end.

(** What holds of every state of a calm session: a call is suspended
    exactly while processing, on the image last captured; an error is shown
    only in the idle and camera views; a transformed image is held only in
    preview, and is the result of the call on the image last captured. *)
Definition invariant (history : list Event) (s : System) : Prop :=
  let m := model s in
  match state m with
  | idle | camera => inflight s = [] /\ transformedImage m = None
  | processing =>
      exists img,
        inflight s = [img] /\ originalImage m = Some img /\
        lastCaptured history = Some img /\
        transformedImage m = None /\ error m = None
  | preview =>
      inflight s = [] /\ error m = None /\
      exists img result,
        originalImage m = Some img /\ transformedImage m = Some result /\
        lastCaptured history = Some img /\
        lastFulfilled history = Some (img, result)
  end.


(** A sample session: open the studio, capture once the camera view is
    there, the painting arrives, the preview view is there. *)
Definition sampleCapture : list Event :=
  [Capture "data:image/jpeg;base64,AAAA"; ExitComplete; OpenStudio].

Definition sampleHistory : list Event :=
  ExitComplete
    :: Settled "data:image/jpeg;base64,AAAA" (inl "data:image/png;base64,iVBORw0KGgo=")
    :: sampleCapture.

Definition samplePreview : System :=
  let m := {| state := preview;
              originalImage := Some "data:image/jpeg;base64,AAAA";
              transformedImage := Some "data:image/png;base64,iVBORw0KGgo=";
              error := None; showComparison := false |} in
  {| model := m; inflight := []; screen := m |}.

Definition sampleProcessing : System :=
  {| model := {| state := processing;
                 originalImage := Some "data:image/jpeg;base64,AAAA";
                 transformedImage := None;
                 error := None; showComparison := false |};
     inflight := ["data:image/jpeg;base64,AAAA"];
     screen := setState camera initial |}.

(** Two taps on the shutter, the second one on the camera view while it
    animates out; then the processing view is on the screen. *)
Definition overlappingCaptures : list Event :=
  [ExitComplete;
   Capture "data:image/jpeg;base64,BBBB"; Capture "data:image/jpeg;base64,AAAA";
   ExitComplete; OpenStudio].

(** After them the first call fails (the camera view comes back), then the
    second one is fulfilled, and the preview view comes up. *)
Definition staleError : list Event :=
  ExitComplete
    :: Settled "data:image/jpeg;base64,BBBB" (inl "data:image/png;base64,iVBORw0KGgo=")
    :: ExitComplete
    :: Settled "data:image/jpeg;base64,AAAA"
         (inr (newError "Network error. Please check your connection and try again."))
    :: overlappingCaptures.

(** Or the first call is fulfilled (the preview view comes up), then the
    second one fails. *)
Definition stalePainting : list Event :=
  Settled "data:image/jpeg;base64,BBBB"
    (inr (newError "Network error. Please check your connection and try again."))
    :: ExitComplete
    :: Settled "data:image/jpeg;base64,AAAA" (inl "data:image/png;base64,iVBORw0KGgo=")
    :: overlappingCaptures.

(** The image of the preview view (line 197):
    [showComparison ? originalImage! : transformedImage]. *)
Definition displayedImage (m : Model) : option string :=
  if showComparison m then originalImage m else transformedImage m.

(** A number in a template literal: decimal digits. *)
Definition decimal (n : N) : string :=
  DecimalString.NilEmpty.string_of_uint (N.to_uint n).

(** [`watercolor-${Date.now()}.png`] *)
Definition downloadName (now : N) : string :=
  "watercolor-" ++ decimal now ++ ".png".

(** [downloadImage] (lines 60-66) at the instant [now]: the [href] and the
    [download] name of the link that is clicked, if one is. *)
Definition downloadImage (now : N) (m : Model) : option (string * string) :=
  match transformedImage m with
  | Some url => if truthy url then Some (url, downloadName now) else None
  | None => None
  end.

(** What [shareImage] does to the outside. *)
Inductive ShareEffect :=
| FetchUrl (url : string)
| NativeShare (fileName title caption : string)
| Alert (msg : string)
| LogError (e : Error).

(** The platform [shareImage] runs on: [fetch(url)] followed by [.blob()],
    and [navigator.share], which may be absent. *)
Record Platform := {
  fetchBlob : string -> Promise unit;
  share : option (Promise unit)
}.

(** [shareImage] (lines 68-85): the state of its promise and its effects. *)
Definition shareImage (p : Platform) (m : Model)
  : Promise unit * list ShareEffect :=
  match transformedImage m with
  | Some url =>
      if truthy url then
        match fetchBlob p url with
        | Fulfilled _ =>
            match share p with
            | Some outcome =>
                let shared :=
                  [FetchUrl url;
                   NativeShare "watercolor.png" "My Watercolor Masterpiece"
                     "Check out this watercolor painting I made with Aquarelle AI!"] in
                match outcome with
                | Fulfilled _ => (Fulfilled tt, shared)
                | Rejected err => (Fulfilled tt, (shared ++ [LogError err])%list)
                | Pending => (Pending, shared)
                end
            | None =>
                (Fulfilled tt,
                 [FetchUrl url; Alert "Sharing is not supported on this browser."])
            end
        | Rejected err => (Fulfilled tt, [FetchUrl url; LogError err])
        | Pending => (Pending, [FetchUrl url])
        end
      else (Fulfilled tt, [])
  | None => (Fulfilled tt, [])
  end.

End App.

(* ================================================================== *)
(** * Capture surface ([components/Camera.tsx]) *)
(* ================================================================== *)

Module Camera.
Local Open Scope string_scope.

Inductive FacingMode := user | environment.

(** The [useState] cells of [Camera]; a stream is named by a number. *)
Record Hooks := {
  stream : option nat;
  error : option (string * string);
  facingMode : FacingMode;
  hasFlash : bool;
  isFlashOn : bool
}.

Definition initialHooks : Hooks :=
  {| stream := None; error := None; facingMode := environment;
     hasFlash := false; isFlashOn := false |}.

Definition setStream (v : option nat) (h : Hooks) : Hooks :=
  {| stream := v; error := error h; facingMode := facingMode h;
     hasFlash := hasFlash h; isFlashOn := isFlashOn h |}.
Definition setError (v : option (string * string)) (h : Hooks) : Hooks :=
  {| stream := stream h; error := v; facingMode := facingMode h;
     hasFlash := hasFlash h; isFlashOn := isFlashOn h |}.
Definition setFacingMode (v : FacingMode) (h : Hooks) : Hooks :=
  {| stream := stream h; error := error h; facingMode := v;
     hasFlash := hasFlash h; isFlashOn := isFlashOn h |}.
Definition setHasFlash (v : bool) (h : Hooks) : Hooks :=
  {| stream := stream h; error := error h; facingMode := facingMode h;
     hasFlash := v; isFlashOn := isFlashOn h |}.

(** The camera hardware: the streams whose tracks have not been stopped,
    and the name the next stream will get. *)
Record Hardware := { live : gset nat; fresh : nat }.

(** A mounted [Camera].  A callback made by [useCallback] in some render is
    the code of the callback with the values of that render; of those
    values [stopStream] reads only [stream].  [cleanup] is the [stream]
    seen by the [stopStream] that the last run of the effect returned. *)
Record Instance := {
  hooks : Hooks;
  isActive : bool;
  cleanup : option nat;
  key : nat
}.

(** [requests]: the [getUserMedia] calls not yet settled, each with the key
    of the instance whose [startCamera] awaits it and the facing mode it
    asked for. *)
Record System := {
  hardware : Hardware;
  mounted : option Instance;
  mounts : nat;
  requests : list (nat * FacingMode)
}.

Definition start : System :=
  {| hardware := {| live := ∅; fresh := 0 |}; mounted := None;
     mounts := 0; requests := [] |}.

(** [stopStream] of a render in which [stream] was [seen] (lines 19-24). *)
Definition stopStream (seen : option nat) (hw : Hardware) (h : Hooks)
  : Hardware * Hooks :=
  match seen with
  | Some id => ({| live := live hw ∖ {[ id ]}; fresh := fresh hw |}, setStream None h)
  | None => (hw, h)
  end.

(** [startCamera] up to its [await] (lines 27-41). *)
Definition startCamera_start (seen : option nat) (mode : FacingMode) (k : nat)
           (hw : Hardware) (h : Hooks) (reqs : list (nat * FacingMode))
  : Hardware * Hooks * list (nat * FacingMode) :=
  let '(hw1, h1) := stopStream seen hw h in
  (hw1, setError None h1, (reqs ++ [(k, mode)])%list).

(** The effect of lines 74-81, run after a render in which [isActive] or
    [facingMode] changed (and after the first render): the cleanup returned
    by the previous run is called first, then the body with the callbacks
    of the current render. *)
Definition runEffect (previous : option (option nat)) (inst : Instance)
           (hw : Hardware) (reqs : list (nat * FacingMode))
  : Hardware * Instance * list (nat * FacingMode) :=
  let seen := stream (hooks inst) in
  let mode := facingMode (hooks inst) in
  let '(hw0, h0) :=
    match previous with
    | Some seen_before => stopStream seen_before hw (hooks inst)
    | None => (hw, hooks inst)
    end in
  let '(hw1, h1, reqs1) :=
    if isActive inst
    then startCamera_start seen mode (key inst) hw0 h0 reqs
    else let '(hw', h') := stopStream seen hw0 h0 in (hw', h', reqs) in
  (hw1,
   {| hooks := h1; isActive := isActive inst; cleanup := seen; key := key inst |},
   reqs1).

Definition errorFor (name : string) : string * string :=
  if String.eqb name "NotAllowedError" then
    ("Permission Denied",
     "Please allow camera access in your browser settings to use Aquarelle AI.")
  else if String.eqb name "NotFoundError" then
    ("No Camera Found", "We couldn't detect a camera on this device.")
  else
    ("Camera Error", "An unexpected error occurred while starting the camera.").

Inductive Event :=
| Mount (active : bool)
| Unmount
| SetActive (active : bool)
| SwitchCamera                   (* line 175 *)
| TryAgain                       (* line 138 *)
| Granted (torch : bool)         (* the oldest [getUserMedia] call resolves *)
| Refused (name : string).       (* ... or rejects *)

Definition withInstance (s : System) (hw : Hardware) (inst : Instance)
           (reqs : list (nat * FacingMode)) : System :=
  {| hardware := hw; mounted := Some inst; mounts := mounts s; requests := reqs |}.

Definition isSome {A} (o : option A) : bool :=
  match o with Some _ => true | None => false end.

Definition toggle (mode : FacingMode) : FacingMode :=
  match mode with user => environment | environment => user end.

(** State updates of an instance that is no longer mounted are dropped. *)
Definition updateHooks (k : nat) (f : Hooks -> Hooks) (o : option Instance)
  : option Instance :=
  match o with
  | Some inst =>
      if Nat.eqb (key inst) k
      then Some {| hooks := f (hooks inst); isActive := isActive inst;
                   cleanup := cleanup inst; key := key inst |}
      else Some inst
  | None => None
  end.

Definition step (ev : Event) (s : System) : option System :=
  match ev, mounted s with
  | Mount active, None =>
      let inst := {| hooks := initialHooks; isActive := active;
                     cleanup := None; key := mounts s |} in
      let '(hw, inst', reqs) := runEffect None inst (hardware s) (requests s) in
      Some {| hardware := hw; mounted := Some inst'; mounts := S (mounts s);
              requests := reqs |}
  | Unmount, Some inst =>
      let '(hw, _) := stopStream (cleanup inst) (hardware s) (hooks inst) in
      Some {| hardware := hw; mounted := None; mounts := mounts s;
              requests := requests s |}
  | SetActive active, Some inst =>
      if Bool.eqb active (isActive inst) then Some s
      else
        let inst1 := {| hooks := hooks inst; isActive := active;
                        cleanup := cleanup inst; key := key inst |} in
        let '(hw, inst', reqs) :=
          runEffect (Some (cleanup inst)) inst1 (hardware s) (requests s) in
        Some (withInstance s hw inst' reqs)
  | SwitchCamera, Some inst =>
      if isSome (error (hooks inst)) then None
      else
        let inst1 := {| hooks := setFacingMode (toggle (facingMode (hooks inst)))
                                                (hooks inst);
                        isActive := isActive inst;
                        cleanup := cleanup inst; key := key inst |} in
        let '(hw, inst', reqs) :=
          runEffect (Some (cleanup inst)) inst1 (hardware s) (requests s) in
        Some (withInstance s hw inst' reqs)
  | TryAgain, Some inst =>
      if isSome (error (hooks inst)) then
        let '(hw, h, reqs) :=
          startCamera_start (stream (hooks inst)) (facingMode (hooks inst))
                            (key inst) (hardware s) (hooks inst) (requests s) in
        Some (withInstance s hw
                {| hooks := h; isActive := isActive inst;
                   cleanup := cleanup inst; key := key inst |} reqs)
      else None
  | Granted torch, _ =>
      match requests s with
      | (k, _) :: rest =>
          let id := fresh (hardware s) in
          Some {| hardware := {| live := {[ id ]} ∪ live (hardware s);
                                 fresh := S id |};
                  mounted := updateHooks k (fun h => setHasFlash torch (setStream (Some id) h))
                                         (mounted s);
                  mounts := mounts s; requests := rest |}
      | [] => None
      end
  | Refused name, _ =>
      match requests s with
      | (k, _) :: rest =>
          Some {| hardware := hardware s;
                  mounted := updateHooks k (setError (Some (errorFor name))) (mounted s);
                  mounts := mounts s; requests := rest |}
      | [] => None
      end
  | _, _ => None
  end.

Fixpoint run (events : list Event) (s : System) : option System :=
  match events with
  | [] => Some s
  | ev :: later =>
      match step ev s with
      | Some s' => run later s'
      | None => None
      end
  end.

Definition setIsFlashOn (v : bool) (h : Hooks) : Hooks :=
  {| stream := stream h; error := error h; facingMode := facingMode h;
     hasFlash := hasFlash h; isFlashOn := v |}.

(** [toggleFlash] (lines 83-94); [applied] tells whether
    [track.applyConstraints] resolves. *)
Definition toggleFlash (applied : bool) (h : Hooks) : Hooks :=
  match stream h with
  | None => h
  | Some _ => if applied then setIsFlashOn (negb (isFlashOn h)) h else h
  end.

(** Events that settle a [getUserMedia] call. *)
Definition settles (ev : Event) : bool :=
  match ev with Granted _ | Refused _ => true | _ => false end.

Definition isUnmount (ev : Event) : bool :=
  match ev with Unmount => true | _ => false end.

Definition noRequest (s : System) : bool :=
  match requests s with [] => true | _ :: _ => false end.

(** A run without unmount in which every [getUserMedia] call is settled
    before the next user action or prop change. *)
Fixpoint sequential (events : list Event) (s : System) : bool :=
  match events with
  | [] => true
  | ev :: later =>
      negb (isUnmount ev) && (settles ev || noRequest s) &&
      match step ev s with
      | Some s' => sequential later s'
      | None => false
      end
  end.

(** What sequential runs keep: a live stream is the one the mounted
    component holds, and none is live while a request is pending. *)
Definition tidy (s : System) : Prop :=
  match mounted s with
  | None => requests s = [] /\ forall id, id ∉ live (hardware s)
  | Some inst =>
      (requests s = [] /\
       forall id, id ∈ live (hardware s) -> stream (hooks inst) = Some id)
      \/ (exists mode, requests s = [(key inst, mode)] /\
                       forall id, id ∉ live (hardware s))
  end.

(** A live stream that no mounted component can reach: neither its state
    nor its registered cleanup names it. *)
Definition orphaned (id : nat) (s : System) : Prop :=
  id ∈ live (hardware s) /\ (id < fresh (hardware s))%nat /\
  match mounted s with
  | None => True
  | Some inst => stream (hooks inst) <> Some id /\ cleanup inst <> Some id
  end.

(** Streams are named in the order they are opened: a name a component
    holds is below the next one. *)
Definition allocated (s : System) : Prop :=
  match mounted s with
  | None => True
  | Some inst =>
      (forall id, stream (hooks inst) = Some id -> (id < fresh (hardware s))%nat) /\
      (forall id, cleanup inst = Some id -> (id < fresh (hardware s))%nat)
  end.

(** Sample states: a component showing stream 0 since its mount. *)
Definition sampleShowing : System :=
  {| hardware := {| live := {[ 0%nat ]}; fresh := 1 |};
     mounted := Some {| hooks := {| stream := Some 0%nat; error := None;
                                    facingMode := environment;
                                    hasFlash := true; isFlashOn := true |};
                        isActive := true; cleanup := None; key := 0 |};
     mounts := 1; requests := [] |}.

(** A component was mounted and unmounted with its request pending, and a
    second one has been mounted since. *)
Definition sampleRemounted : System :=
  {| hardware := {| live := ∅; fresh := 0 |};
     mounted := Some {| hooks := initialHooks; isActive := true;
                        cleanup := None; key := 1 |};
     mounts := 2; requests := [(0%nat, environment); (1%nat, environment)] |}.

(** ** Still-frame capture *)

Section Capture.
Local Open Scope Z_scope.
Variable Pixel : Type.
(** [canvas.toDataURL(type, quality)] *)
Variable toDataURL : list (list (option Pixel)) -> string -> Q -> string.

Record Video := {
  videoWidth : Z;
  videoHeight : Z;
  (** the current frame as the sensor delivers it: column, row *)
  frame : Z -> Z -> Pixel
}.

(** The current transformation of a 2D context, in the form
    [x |-> sx * x + tx], [y |-> sy * y + ty] that [translate] and [scale]
    keep. *)
Record Transform := { sx : Z; sy : Z; tx : Z; ty : Z }.

Definition identity : Transform := {| sx := 1; sy := 1; tx := 0; ty := 0 |}.

Definition translate (x y : Z) (t : Transform) : Transform :=
  {| sx := sx t; sy := sy t; tx := tx t + sx t * x; ty := ty t + sy t * y |}.

Definition scale (x y : Z) (t : Transform) : Transform :=
  {| sx := sx t * x; sy := sy t * y; tx := tx t; ty := ty t |}.

(** For a unit scale [s] (1 or -1): the source column whose unit cell
    [[i, i+1]] is mapped onto the cell [[X, X+1]] of the canvas. *)
Definition sourceCoord (s t X : Z) : Z :=
  s * (X - t) - (if s <? 0 then 1 else 0).

Definition indices (n : Z) : list Z := map Z.of_nat (seq 0 (Z.to_nat n)).

(** [ctx.drawImage(video, 0, 0, width, height)] on a cleared canvas of
    [width] by [height] pixels, where [width] and [height] are the
    dimensions of the frame: rows from the top, [None] where nothing is
    drawn. *)
Definition drawImage (video : Video) (t : Transform) (width height : Z)
  : list (list (option Pixel)) :=
  map (fun Y =>
         map (fun X =>
                let i := sourceCoord (sx t) (tx t) X in
                let j := sourceCoord (sy t) (ty t) Y in
                if (0 <=? i) && (i <? width) && (0 <=? j) && (j <? height)
                then Some (frame video i j) else None)
             (indices width))
      (indices height).

(** The bitmap [capturePhoto] encodes (lines 102-116).  Assigning
    [canvas.width] clears the canvas and resets its context, so the
    transformation starts from the identity at every capture. *)
Definition captureBitmap (video : Video) (mode : FacingMode)
  : list (list (option Pixel)) :=
  let width := videoWidth video in
  let height := videoHeight video in
  let t := match mode with
           | user => scale (-1) 1 (translate width 0 identity)
           | environment => identity
           end in
  drawImage video t width height.

(** [capturePhoto]: the data URL handed to [onCapture], if any.
    [navigator.vibrate] has no bearing on it. *)
Definition capturePhoto (videoRef : option Video) (canvasRef has2d : bool)
           (mode : FacingMode) : option string :=
  match videoRef with
  | Some video =>
      if canvasRef && has2d
      then Some (toDataURL (captureBitmap video mode) "image/jpeg" (95 # 100))
      else None
  | None => None
  end.

(** The raw sensor frame as a bitmap, and horizontal mirroring. *)
Definition sensorFrame (video : Video) : list (list (option Pixel)) :=
  map (fun Y => map (fun X => Some (frame video X Y)) (indices (videoWidth video)))
      (indices (videoHeight video)).

Definition mirror (bitmap : list (list (option Pixel))) : list (list (option Pixel)) :=
  map (@rev (option Pixel)) bitmap.

End Capture.

Arguments Build_Video {Pixel}.
Arguments videoWidth {Pixel}.
Arguments videoHeight {Pixel}.
Arguments frame {Pixel}.
Arguments drawImage {Pixel}.
Arguments captureBitmap {Pixel}.
Arguments capturePhoto {Pixel}.
Arguments sensorFrame {Pixel}.
Arguments mirror {Pixel}.

End Camera.

(* ================================================================== *)
(** * The number model against the machine's binary64 arithmetic *)
(* ================================================================== *)

Module Binary64Check.
Import Number.
Import PrimFloat.

(** Quotients and products the normalizer computes on sample images. *)
Example fdiv_1024_3000 :
  Qeq_bool (fdiv 1024 3000) (binary64ToQ (PrimFloat.div 1024%float 3000%float)) = true.
Proof. vm_compute. reflexivity. Qed.

Example fmul_1122 :
  Qeq_bool (fmul 1122 (fdiv 1024 1122))
           (binary64ToQ (PrimFloat.mul 1122%float (PrimFloat.div 1024%float 1122%float))) = true.
Proof. vm_compute. reflexivity. Qed.

Example fmul_161 :
  Qeq_bool (fmul 161 (fdiv 1024 1288))
           (binary64ToQ (PrimFloat.mul 161%float (PrimFloat.div 1024%float 1288%float))) = true.
Proof. vm_compute. reflexivity. Qed.

Example fmul_3024 :
  Qeq_bool (fmul 3024 (fdiv 1024 4032))
           (binary64ToQ (PrimFloat.mul 3024%float (PrimFloat.div 1024%float 4032%float))) = true.
Proof. vm_compute. reflexivity. Qed.

End Binary64Check.

(* ================================================================== *)
(** * Rounding on 53 bits: error bounds *)
(* ================================================================== *)

Module NumberFacts.
Import Number.

Lemma rne_err q : (inject_Z (rne q) - (1 # 2) <= q <= inject_Z (rne q) + (1 # 2))%Q.
Proof.
  destruct q as [a b]. unfold rne. cbn [Qnum Qden].
  pose proof (Z.div_mod a (Zpos b) ltac:(lia)) as Hdm.
  pose proof (Z.mod_pos_bound a (Zpos b) ltac:(lia)) as Hr.
  unfold Qle, Qminus, Qplus, Qopp, inject_Z. cbn [Qnum Qden].
  destruct (Z.compare_spec (2 * (a mod Zpos b)) (Zpos b));
    [destruct (Z.even (a / Zpos b))| |]; nia.
Qed.

Lemma pow2_pos s : (0 < 2 ^ s)%Q.
Proof. apply Qpower_0_lt. reflexivity. Qed.

Lemma pow2_inject k : 0 <= k -> (inject_Z (2 ^ k) == 2 ^ k)%Q.
Proof. intros Hk. now rewrite Zpower_Qpower. Qed.

Lemma pow2_add a b : (2 ^ (a + b) == 2 ^ a * 2 ^ b)%Q.
Proof. apply Qpower_plus. discriminate. Qed.

Lemma ilog2_lower x : (0 < x)%Q -> (2 ^ ilog2 x <= x)%Q.
Proof.
  intros Hx. unfold ilog2.
  destruct (Qle_bool _ x) eqn:Ht; [now apply Qle_bool_iff|].
  destruct x as [n d]. cbn [Qnum Qden] in *.
  assert (Hn : 0 < n) by (unfold Qlt in Hx; cbn in Hx; lia).
  pose proof (Z.log2_spec n Hn) as [Hn1 _].
  pose proof (Z.log2_spec (Zpos d) ltac:(lia)) as [_ Hd2].
  pose proof (Z.log2_nonneg n). pose proof (Z.log2_nonneg (Zpos d)).
  set (ln := Z.log2 n) in *. set (ld := Z.log2 (Zpos d)) in *.
  apply (Qmult_le_r _ _ (2 ^ (ld + 1))); [apply pow2_pos|].
  rewrite <- pow2_add.
  replace (ln - ld - 1 + (ld + 1)) with ln by lia.
  rewrite <- !pow2_inject by lia.
  unfold Qle, Qmult, inject_Z. cbn [Qnum Qden].
  pose proof (Z.pow_pos_nonneg 2 ln ltac:(lia) ltac:(lia)).
  nia.
Qed.

Lemma ilog2_upper x : (0 < x)%Q -> (x < 2 ^ (ilog2 x + 1))%Q.
Proof.
  intros Hx. unfold ilog2.
  destruct (Qle_bool _ x) eqn:Ht.
  - destruct x as [n d]. cbn [Qnum Qden] in *.
    assert (Hn : 0 < n) by (unfold Qlt in Hx; cbn in Hx; lia).
    pose proof (Z.log2_spec n Hn) as [_ Hn2].
    pose proof (Z.log2_spec (Zpos d) ltac:(lia)) as [Hd1 _].
    pose proof (Z.log2_nonneg n). pose proof (Z.log2_nonneg (Zpos d)).
    set (ln := Z.log2 n) in *. set (ld := Z.log2 (Zpos d)) in *.
    apply (Qmult_lt_r _ _ (2 ^ ld)); [apply pow2_pos|].
    rewrite <- pow2_add.
    replace (ln - ld + 1 + ld) with (ln + 1) by lia.
    rewrite <- !pow2_inject by lia.
    unfold Qlt, Qmult, inject_Z. cbn [Qnum Qden].
    pose proof (Z.pow_pos_nonneg 2 ld ltac:(lia) ltac:(lia)).
    nia.
  - replace (_ - 1 + 1) with (Z.log2 (Qnum x) - Z.log2 (Zpos (Qden x))) by lia.
    apply Qnot_le_lt. intros Hle. apply Qle_bool_iff in Hle. congruence.
Qed.

(** The significand [round53] rounds to has 53 bits (or is [2^53], when
    rounding carries into the next binade). *)
Lemma round53_significand x :
  (0 < x)%Q ->
  2 ^ 52 <= rne (x / 2 ^ (ilog2 x - 52)) <= 2 ^ 53.
Proof.
  intros Hx. set (s := ilog2 x - 52).
  pose proof (pow2_pos s) as HP.
  pose proof (ilog2_lower x Hx) as Hlow.
  pose proof (ilog2_upper x Hx) as Hupp.
  replace (ilog2 x) with (s + 52) in Hlow by (unfold s; lia).
  replace (ilog2 x + 1) with (s + 53) in Hupp by (unfold s; lia).
  rewrite pow2_add in Hlow, Hupp.
  pose proof (rne_err (x / 2 ^ s)) as [Hl Hu].
  assert (Hq : (x / 2 ^ s * 2 ^ s == x)%Q).
  { field. intros H0. rewrite H0 in HP. discriminate. }
  set (m := rne (x / 2 ^ s)) in *.
  set (P := (2 ^ s)%Q) in *. set (q := (x / P)%Q) in *.
  change (2 ^ 52)%Q with (inject_Z (2 ^ 52)) in Hlow.
  change (2 ^ 53)%Q with (inject_Z (2 ^ 53)) in Hupp.
  assert (Hq1 : (inject_Z (2 ^ 52) <= q)%Q).
  { apply (Qmult_le_r _ _ P HP). rewrite Hq, Qmult_comm. exact Hlow. }
  assert (Hq2 : (q < inject_Z (2 ^ 53))%Q).
  { apply (Qmult_lt_r _ _ P HP). rewrite Hq, (Qmult_comm (inject_Z _)). exact Hupp. }
  assert (G1 : (inject_Z (2 ^ 52 - 1) < inject_Z m)%Q).
  { unfold Z.sub. rewrite inject_Z_plus. clear - Hu Hq1.
    change (inject_Z (- (1))) with (- (1))%Q. lra. }
  assert (G2 : (inject_Z m < inject_Z (2 ^ 53 + 1))%Q).
  { rewrite inject_Z_plus. clear - Hl Hq2. change (inject_Z 1) with 1%Q. lra. }
  rewrite <- Zlt_Qlt in G1, G2. lia.
Qed.

(** Relative error of rounding: at most [2^-53]. *)
Lemma round53_err x :
  (0 < x)%Q -> (x * (1 - eps) <= round53 x <= x * (1 + eps))%Q.
Proof.
  intros Hx. unfold round53.
  destruct (Qnum x) eqn:Hnum;
    [unfold Qlt in Hx; cbn in Hx; lia| |unfold Qlt in Hx; cbn in Hx; lia].
  replace (Qabs x) with x
    by (destruct x as [n d]; cbn in *; subst n; reflexivity).
  set (s := ilog2 x - 52).
  pose proof (pow2_pos s) as HP.
  pose proof (ilog2_lower x Hx) as Hlow.
  replace (ilog2 x) with (s + 52) in Hlow by (unfold s; lia).
  rewrite pow2_add in Hlow.
  pose proof (rne_err (x / 2 ^ s)) as [Hl Hu].
  set (m := inject_Z (rne (x / 2 ^ s))) in *.
  assert (Hq : (x / 2 ^ s * 2 ^ s == x)%Q).
  { field. intros H0. rewrite H0 in HP. discriminate. }
  set (P := (2 ^ s)%Q) in *. set (q := (x / P)%Q) in *.
  change (2 ^ 52)%Q with (4503599627370496 # 1)%Q in Hlow.
  unfold eps. change (2 ^ 53)%positive with 9007199254740992%positive.
  split; nra.
Qed.

Lemma round53_zero x : Qnum x = 0 -> round53 x = 0%Q.
Proof. unfold round53. now intros ->. Qed.

Lemma toUnsignedLong_floor y :
  (0 <= y)%Q -> Qfloor y < 2 ^ 32 -> toUnsignedLong y = Qfloor y.
Proof.
  intros Hy Hlt. unfold toUnsignedLong.
  destruct y as [n d]. cbn [Qnum Qden Qfloor] in *.
  assert (0 <= n) by (unfold Qle in Hy; cbn in Hy; lia).
  rewrite Z.quot_div_nonneg by lia.
  apply Z.mod_small. split; [apply Z.div_pos; lia | exact Hlt].
Qed.

(** The scaled side of the normalizer: [a * (B / L)] computed in binary64
    and truncated lies within one pixel below the exact value
    [a * B / L]. *)
Lemma scaled_dim a L B :
  0 <= a <= L -> 1 <= B < L -> B < 2 ^ 32 -> B * L <= 2 ^ 51 ->
  let t := toUnsignedLong (fmul (inject_Z a) (fdiv (inject_Z B) (inject_Z L))) in
  a * B - L <= t * L <= a * B.
Proof.
  intros Ha HB HL HB'. cbv zeta.
  set (c := fdiv (inject_Z B) (inject_Z L)).
  assert (HLq : (0 < inject_Z L)%Q) by (change 0%Q with (inject_Z 0); rewrite <- Zlt_Qlt; lia).
  assert (HBq : (0 < inject_Z B)%Q) by (change 0%Q with (inject_Z 0); rewrite <- Zlt_Qlt; lia).
  assert (Hdiv : (0 < inject_Z B / inject_Z L)%Q).
  { apply Qlt_shift_div_l; [exact HLq | now rewrite Qmult_0_l]. }
  assert (He0 : (0 <= eps)%Q) by discriminate.
  assert (He1 : (eps <= 1 # 2)%Q) by discriminate.
  assert (Hnum : ((2251799813685248 # 1) * (2 * eps + eps * eps) < 1)%Q) by reflexivity.
  pose proof (round53_err _ Hdiv) as [Hc1 Hc2].
  fold (fdiv (inject_Z B) (inject_Z L)) in Hc1, Hc2. fold c in Hc1, Hc2.
  assert (HdL : (inject_Z B / inject_Z L * inject_Z L == inject_Z B)%Q).
  { field. intros H0. rewrite H0 in HLq. discriminate. }
  destruct (Z.eq_dec a 0) as [->|Hne].
  { unfold fmul. rewrite round53_zero by (cbn; lia).
    change (toUnsignedLong 0) with 0. lia. }
  assert (Haq : (0 < inject_Z a)%Q) by (change 0%Q with (inject_Z 0); rewrite <- Zlt_Qlt; lia).
  assert (HP : (inject_Z a * inject_Z B <= 2251799813685248 # 1)%Q).
  { rewrite <- inject_Z_mult. change (2251799813685248 # 1)%Q with (inject_Z (2 ^ 51)).
    rewrite <- Zle_Qle. nia. }
  set (A := inject_Z a) in *. set (Bq := inject_Z B) in *. set (Lq := inject_Z L) in *.
  set (d := (Bq / Lq)%Q) in *.
  assert (HcL : (Bq * (1 - eps) <= c * Lq <= Bq * (1 + eps))%Q).
  { clear - Hc1 Hc2 HdL HLq. split; nra. }
  assert (Hcpos : (0 < c)%Q) by (clear - Hc1 Hdiv He1; nra).
  assert (Hac : (0 < A * c)%Q) by (apply Qmult_lt_0_compat; assumption).
  pose proof (round53_err _ Hac) as [Hy1 Hy2].
  fold (fmul A c) in Hy1, Hy2.
  set (y := fmul A c) in *.
  pose proof (Qfloor_le y) as Hf1. pose proof (Qlt_floor y) as Hf2.
  rewrite inject_Z_plus in Hf2. change (inject_Z 1) with 1%Q in Hf2.
  set (f := Qfloor y) in *.
  set (F := inject_Z f) in *.
  assert (HyL : (A * Bq * ((1 - eps) * (1 - eps)) <= y * Lq
                 <= A * Bq * ((1 + eps) * (1 + eps)))%Q).
  { destruct HcL as [HcL1 HcL2].
    assert (E1 : (y * Lq <= A * (c * Lq) * (1 + eps))%Q) by (clear - Hy2 HLq; nra).
    assert (E2 : (A * (c * Lq) * (1 - eps) <= y * Lq)%Q) by (clear - Hy1 HLq; nra).
    set (cL := (c * Lq)%Q) in *.
    assert (E3 : (A * cL * (1 + eps) <= A * (Bq * (1 + eps)) * (1 + eps))%Q).
    { apply Qmult_le_compat_r; [|clear - He0; lra].
      apply Qmult_le_l; assumption. }
    assert (E4 : (A * (Bq * (1 - eps)) * (1 - eps) <= A * cL * (1 - eps))%Q).
    { apply Qmult_le_compat_r; [|clear - He1; lra].
      apply Qmult_le_l; assumption. }
    split.
    - eapply Qle_trans; [|exact E2]. eapply Qle_trans; [|exact E4]. apply Qle_lteq. right. ring.
    - eapply Qle_trans; [exact E1|]. eapply Qle_trans; [exact E3|]. apply Qle_lteq. right. ring. }
  set (P := (A * Bq)%Q) in *.
  assert (HP0 : (0 <= P)%Q) by (unfold P; clear - Haq HBq; nra).
  assert (Hdelta : (P * (2 * eps + eps * eps) < 1)%Q).
  { eapply Qle_lt_trans; [|exact Hnum].
    apply Qmult_le_compat_r; [exact HP|clear - He0; nra]. }
  destruct HyL as [HyL1 HyL2].
  assert (Hup : (F * Lq < P + 1)%Q).
  { assert (F * Lq <= y * Lq)%Q by (apply Qmult_le_compat_r; [exact Hf1|now apply Qlt_le_weak]).
    clear - H HyL2 Hdelta. nra. }
  assert (Hlo : (P - 1 < (F + 1) * Lq)%Q).
  { assert (y * Lq < (F + 1) * Lq)%Q by (apply Qmult_lt_compat_r; assumption).
    clear - H HyL1 Hdelta HP0 He0. nra. }
  assert (HupZ : f * L < a * B + 1).
  { rewrite Zlt_Qlt, inject_Z_plus, !inject_Z_mult. exact Hup. }
  assert (HloZ : a * B - 1 < (f + 1) * L).
  { rewrite Zlt_Qlt. unfold Z.sub. rewrite inject_Z_plus, !inject_Z_mult, inject_Z_plus.
    exact Hlo. }
  assert (Hy0 : (0 <= y)%Q).
  { eapply Qle_trans; [|exact Hy1]. apply Qmult_le_0_compat; [now apply Qlt_le_weak|].
    clear - He1. lra. }
  assert (Hf0 : f < 2 ^ 32) by nia.
  rewrite (toUnsignedLong_floor y Hy0 Hf0). fold f. nia.
Qed.

End NumberFacts.

(* ================================================================== *)
(** * The normalizer bounds the longer side and keeps the proportions *)
(* ================================================================== *)

Module NormalizerFacts.
Import Number NumberFacts Normalizer.

Lemma gt_inject a b : gt (inject_Z a) (inject_Z b) = (b <? a).
Proof.
  unfold gt. destruct (Z.ltb_spec b a) as [Hlt|Hge].
  - apply negb_true_iff. apply not_true_is_false. intros Hle.
    apply Qle_bool_iff in Hle. rewrite <- Zle_Qle in Hle. lia.
  - apply negb_false_iff. apply Qle_bool_iff. rewrite <- Zle_Qle. lia.
Qed.

Lemma toUnsignedLong_inject k : 0 <= k < 2 ^ 32 -> toUnsignedLong (inject_Z k) = k.
Proof.
  intros Hk. unfold toUnsignedLong. cbn [inject_Z Qnum Qden].
  rewrite Z.quot_1_r. now apply Z.mod_small.
Qed.

(** Below [2^31] the canvas keeps the converted number, whatever the
    attribute's default. *)
Lemma setCanvasDimension_small default x :
  toUnsignedLong x < 2 ^ 31 -> setCanvasDimension default x = toUnsignedLong x.
Proof.
  intros Hx. unfold setCanvasDimension. cbv zeta.
  destruct (Z.leb_spec (toUnsignedLong x) (2 ^ 31 - 1)); [reflexivity | lia].
Qed.

Lemma setCanvasDimension_inject default k :
  0 <= k < 2 ^ 31 -> setCanvasDimension default (inject_Z k) = k.
Proof.
  intros Hk. rewrite setCanvasDimension_small; rewrite toUnsignedLong_inject; lia.
Qed.

(** Under the range hypotheses of the normalizer's theorems, a bound below
    the longer side is below [2^26], and so is a side within the bound. *)
Lemma bound_small B L : 1 <= B -> B < L -> B * L <= 2 ^ 51 -> B < 2 ^ 26.
Proof. intros. nia. Qed.

Lemma side_small a B L : 0 <= a <= L -> L <= B -> B * L <= 2 ^ 51 -> a < 2 ^ 26.
Proof. intros. nia. Qed.

(** The scaled side as the canvas holds it. *)
Lemma scaled_canvas_dim default a L B :
  0 <= a <= L -> 1 <= B < L -> B < 2 ^ 32 -> B * L <= 2 ^ 51 ->
  let t := setCanvasDimension default
             (fmul (inject_Z a) (fdiv (inject_Z B) (inject_Z L))) in
  t = toUnsignedLong (fmul (inject_Z a) (fdiv (inject_Z B) (inject_Z L))) /\
  a * B - L <= t * L <= a * B /\ 0 <= t <= B.
Proof.
  intros Ha HB HL Hprod. cbv zeta.
  pose proof (scaled_dim a L B Ha HB HL Hprod) as Ht. cbv zeta in Ht.
  pose proof (bound_small B L ltac:(lia) ltac:(lia) Hprod) as Hb.
  set (t := toUnsignedLong _) in *.
  assert (Ht0 : 0 <= t) by (apply Z.mod_pos_bound; lia).
  assert (HtB : t <= B) by nia.
  rewrite setCanvasDimension_small by lia. lia.
Qed.

(** Examples, checked against binary64 arithmetic: a 4:3 photo, a square
    one whose scaled side falls just below the bound, a small one. *)
Example resize_4032x3024 : resizeDims 4032 3024 1024 = (1024, 768).
Proof. vm_compute. reflexivity. Qed.

Example resize_1122x1122 : resizeDims 1122 1122 1024 = (1023, 1024).
Proof. vm_compute. reflexivity. Qed.

Example resize_1288x161 : resizeDims 1288 161 1024 = (1024, 127).
Proof. vm_compute. reflexivity. Qed.

Example resize_800x600 : resizeDims 800 600 1024 = (800, 600).
Proof. vm_compute. reflexivity. Qed.

(** C4.  For an image of [W] by [H] pixels and a bound [B], the canvas
    [resizeImage] encodes has its longer side at most [B]; its proportions
    are those of the image up to rounding: an image that exceeds the bound
    has its longer side set to exactly [B] and its other side within one
    pixel below the exact proportional length (cross-multiplied,
    [H * B - W <= H' * W <= H * B] for a landscape image and the same with
    the sides exchanged otherwise), so that
    [|W' * H - H' * W| <= max W H]; and an image already within the bound
    keeps its dimensions. *)
Theorem resizeDims_bounded_proportional W H B :
  0 <= W < 2 ^ 32 -> 0 <= H < 2 ^ 32 -> 1 <= B < 2 ^ 32 ->
  B * Z.max W H <= 2 ^ 51 ->
  let W' := fst (resizeDims W H B) in
  let H' := snd (resizeDims W H B) in
  Z.max W' H' <= B /\
  Z.abs (W' * H - H' * W) <= Z.max W H /\
  (Z.max W H <= B -> W' = W /\ H' = H) /\
  (B < Z.max W H -> Z.max W' H' = B) /\
  (H < W -> B < W -> W' = B /\ H * B - W <= H' * W <= H * B) /\
  (W <= H -> B < H -> H' = B /\ W * B - H <= W' * H <= W * B).
Proof.
  intros HW HH HB Hprod. unfold resizeDims. rewrite !gt_inject.
  destruct (Z.ltb_spec H W) as [Hlt|Hge].
  - rewrite Z.max_l in * by lia.
    destruct (Z.ltb_spec B W) as [Hbig|Hsmall]; cbv zeta; cbn [fst snd].
    + pose proof (bound_small B W ltac:(lia) Hbig Hprod) as Hb.
      destruct (scaled_canvas_dim 150 H W B ltac:(lia) ltac:(lia) ltac:(lia) Hprod)
        as (_ & Ht & Ht0).
      rewrite (setCanvasDimension_inject 300 B) by lia.
      set (t := setCanvasDimension 150 _) in *. clearbody t. clear Hprod.
      repeat split; try lia.
    + pose proof (side_small W B W ltac:(lia) Hsmall Hprod).
      pose proof (side_small H B W ltac:(lia) Hsmall Hprod).
      rewrite !setCanvasDimension_inject by lia. clear Hprod.
      repeat split; try lia.
  - rewrite Z.max_r in * by lia.
    destruct (Z.ltb_spec B H) as [Hbig|Hsmall]; cbv zeta; cbn [fst snd].
    + pose proof (bound_small B H ltac:(lia) Hbig Hprod) as Hb.
      destruct (scaled_canvas_dim 300 W H B ltac:(lia) ltac:(lia) ltac:(lia) Hprod)
        as (_ & Ht & Ht0).
      rewrite (setCanvasDimension_inject 150 B) by lia.
      set (t := setCanvasDimension 300 _) in *. clearbody t. clear Hprod.
      repeat split; try lia.
    + pose proof (side_small W B H ltac:(lia) Hsmall Hprod).
      pose proof (side_small H B H ltac:(lia) Hsmall Hprod).
      rewrite !setCanvasDimension_inject by lia. clear Hprod.
      repeat split; try lia.
Qed.

Lemma resizeDims_bounded_proportional_witness :
  let W' := fst (resizeDims 4032 3024 1024) in
  let H' := snd (resizeDims 4032 3024 1024) in
  Z.max W' H' <= 1024 /\
  Z.abs (W' * 3024 - H' * 4032) <= Z.max 4032 3024 /\
  (Z.max 4032 3024 <= 1024 -> W' = 4032 /\ H' = 3024) /\
  (1024 < Z.max 4032 3024 -> Z.max W' H' = 1024) /\
  (3024 < 4032 -> 1024 < 4032 ->
   W' = 1024 /\ 3024 * 1024 - 4032 <= H' * 4032 <= 3024 * 1024) /\
  (4032 <= 3024 -> 1024 < 3024 ->
   H' = 1024 /\ 4032 * 1024 - 3024 <= W' * 3024 <= 4032 * 1024).
Proof. apply (resizeDims_bounded_proportional 4032 3024 1024); lia. Defined.

End NormalizerFacts.

(* ================================================================== *)
(** * The transformation client: outcomes and observable effects *)
(* ================================================================== *)

Module GeminiServiceFacts.
Import Js GeminiService.
Local Open Scope string_scope.

Lemma prefix_spec p s :
  String.prefix p s = true <-> exists rest, s = p ++ rest.
Proof.
  revert s. induction p as [|c p IH]; intros [|c' s]; cbn.
  - split; [intros _; now exists "" | reflexivity].
  - split; [intros _; now exists (String c' s) | reflexivity].
  - split; [discriminate | intros [rest Hrest]; discriminate].
  - destruct (Ascii.ascii_dec c c') as [->|Hne].
    + rewrite IH. split; intros [rest Hrest]; exists rest.
      * now rewrite Hrest.
      * now injection Hrest.
    + split; [discriminate | intros [rest Hrest]; injection Hrest; intros; now subst].
Qed.

(** [includes] decides occurrence as a substring. *)
Lemma includes_spec s sub : includes s sub = true <-> occursIn sub s.
Proof.
  split.
  - induction s as [|c s IH]; cbn [includes]; intros H; apply orb_true_iff in H.
    + destruct H as [H|H]; [|discriminate].
      apply prefix_spec in H as [rest Hrest]. now exists "", rest.
    + destruct H as [H|H].
      * apply prefix_spec in H as [rest Hrest]. now exists "", rest.
      * destruct (IH H) as (before & after & ->).
        now exists (String c before), after.
  - intros (before & after & ->).
    induction before as [|c before IH].
    + assert (Hp : String.prefix sub ("" ++ sub ++ after) = true)
        by (apply prefix_spec; now exists after).
      destruct ("" ++ sub ++ after); cbn [includes]; now rewrite Hp.
    + cbn [append includes]. apply orb_true_iff. right. exact IH.
Qed.

(** The scan returns the data of the first part that carries inline data,
    whatever precedes it without any. *)
Lemma scanParts_first_image skipped part blob rest url :
  Forall (fun p => inlineData p = None) skipped ->
  inlineData part = Some blob ->
  scanParts (skipped ++ part :: rest) url =
  "data:image/png;base64," ++ interpolate (data blob).
Proof.
  intros Hskip Hpart. induction Hskip as [|p skipped Hp _ IH]; cbn.
  - now rewrite Hpart.
  - now rewrite Hp.
Qed.

Lemma scanParts_no_image ps url :
  Forall (fun p => inlineData p = None) ps -> scanParts ps url = url.
Proof.
  intros Hall. induction Hall as [|p ps Hp _ IH]; cbn; [reflexivity|].
  now rewrite Hp.
Qed.

(** A response with an image part, after a successful normalization, is
    answered with that image. *)
Lemma first_image_is_returned w img tr opt tr' skipped part blob rest :
  truthyOpt (API_KEY w) = true ->
  resizeImage w img 1024 tr = (Fulfilled opt, tr') ->
  generateContent w (buildRequest (payload opt)) =
    inl (respond (skipped ++ part :: rest)) ->
  Forall (fun p => inlineData p = None) skipped ->
  inlineData part = Some blob ->
  fst (transformToWatercolor w img tr) =
  Fulfilled ("data:image/png;base64," ++ interpolate (data blob)).
Proof.
  intros Hkey Hresize Hremote Hskip Hpart.
  unfold transformToWatercolor. rewrite Hkey. cbn [negb].
  unfold await at 1. rewrite Hresize.
  unfold tryCatch, await, callGenerateContent, await, perform.
  rewrite Hremote. unfold pure. cbn [responseParts respond candidates content parts].
  rewrite (scanParts_first_image _ _ _ _ _ Hskip Hpart). reflexivity.
Qed.

(** A response without any image part makes the [try] block throw the
    empty-result error, which the [catch] of the same function replaces:
    the caller is told of a network error. *)
Lemma no_image_surfaces_as_network_error w img tr opt tr' ps :
  truthyOpt (API_KEY w) = true ->
  resizeImage w img 1024 tr = (Fulfilled opt, tr') ->
  generateContent w (buildRequest (payload opt)) = inl (respond ps) ->
  Forall (fun p => inlineData p = None) ps ->
  transformToWatercolor w img tr =
  (Rejected (newError msgNetwork),
   (tr' ++ [RemoteCall (buildRequest (payload opt));
            ConsoleError (newError msgEmpty)])%list).
Proof.
  intros Hkey Hresize Hremote Hnone.
  unfold transformToWatercolor. rewrite Hkey. cbn [negb].
  unfold await at 1. rewrite Hresize.
  unfold tryCatch, await, callGenerateContent, await, perform.
  rewrite Hremote. unfold pure. cbn [responseParts respond candidates content parts].
  rewrite (scanParts_no_image _ _ Hnone). cbn.
  rewrite <- app_assoc. reflexivity.
Qed.

(** C1.  With the response parts [text, text] the call is rejected, but the
    caller sees the network message: the empty-result error thrown at line
    77 is caught at line 81 and replaced at line 86. *)
Theorem text_only_response_reports_network_error :
  let w := sampleWorld (Some "key")
             (fun _ => inl (respond [textPart "Here is"; textPart "your painting"])) in
  fst (transformToWatercolor w "data:image/jpeg;base64,AAAA" []) =
    Rejected (newError "Network error. Please check your connection and try again.")
  /\ fst (transformToWatercolor w "data:image/jpeg;base64,AAAA" []) <>
    Rejected (newError "The artist encountered an error. Please try another shot.")
  /\ In (ConsoleError (newError "The artist encountered an error. Please try another shot."))
        (snd (transformToWatercolor w "data:image/jpeg;base64,AAAA" [])).
Proof.
  cbv zeta. split; [|split].
  - vm_compute. reflexivity.
  - vm_compute. discriminate.
  - vm_compute. right. right. left. reflexivity.
Qed.

(** The other half of the scenario: [text, inlineImage] yields the image. *)
Example text_then_image_returns_image :
  let w := sampleWorld (Some "key")
             (fun _ => inl (respond [textPart "Here is"; imagePart "iVBORw0KGgo="])) in
  fst (transformToWatercolor w "data:image/jpeg;base64,AAAA" []) =
    Fulfilled "data:image/png;base64,iVBORw0KGgo=".
Proof. vm_compute. reflexivity. Qed.

(** C2.  Without a configured key (absent or empty) the call is rejected
    with the configuration message and the effects are exactly those
    before the call: no image is loaded for normalization and no remote
    call is made. *)
Theorem missing_key_fails_before_any_effect w img tr :
  truthyOpt (API_KEY w) = false ->
  transformToWatercolor w img tr =
  (Rejected (newError "Gemini API Key is missing. Please configure it in the Secrets panel."),
   tr).
Proof.
  intros Hkey. unfold transformToWatercolor. rewrite Hkey. reflexivity.
Qed.

Lemma missing_key_fails_before_any_effect_witness :
  transformToWatercolor
    (sampleWorld None (fun _ => inl (respond [imagePart "iVBORw0KGgo="])))
    "data:image/jpeg;base64,AAAA" [] =
  (Rejected (newError "Gemini API Key is missing. Please configure it in the Secrets panel."),
   []).
Proof. apply missing_key_fails_before_any_effect. reflexivity. Defined.

(** C3.  When the remote call is rejected, the caller sees the safety
    message if the reason's message contains [Safety], and the network
    message otherwise. *)
Theorem remote_failure_messages w img tr opt tr' reason :
  truthyOpt (API_KEY w) = true ->
  resizeImage w img 1024 tr = (Fulfilled opt, tr') ->
  generateContent w (buildRequest (payload opt)) = inr reason ->
  ((exists m, message reason = Some m /\ occursIn "Safety" m) ->
   fst (transformToWatercolor w img tr) =
   Rejected (newError "This image couldn't be processed due to safety guidelines."))
  /\
  (~ (exists m, message reason = Some m /\ occursIn "Safety" m) ->
   fst (transformToWatercolor w img tr) =
   Rejected (newError "Network error. Please check your connection and try again.")).
Proof.
  intros Hkey Hresize Hremote.
  assert (Hrun : fst (transformToWatercolor w img tr) =
                 Rejected (newError (if mentionsSafety reason then msgSafety else msgNetwork))).
  { unfold transformToWatercolor. rewrite Hkey. cbn [negb].
    unfold await at 1. rewrite Hresize.
    unfold tryCatch, await, callGenerateContent, await, perform.
    rewrite Hremote. unfold throw. now destruct (mentionsSafety reason). }
  rewrite Hrun. unfold mentionsSafety. split.
  - intros (m & -> & Hocc). apply includes_spec in Hocc. now rewrite Hocc.
  - intros Hnot. destruct (message reason) as [m|] eqn:Hm; [|reflexivity].
    destruct (includes m "Safety") eqn:Hinc; [|reflexivity].
    exfalso. apply Hnot. exists m. split; [reflexivity|]. now apply includes_spec.
Qed.

Lemma remote_failure_messages_witness :
  let w := sampleWorld (Some "key")
             (fun _ => inr (newError "Blocked: Safety filters triggered")) in
  ((exists m, message (newError "Blocked: Safety filters triggered") = Some m
              /\ occursIn "Safety" m) ->
   fst (transformToWatercolor w "data:image/jpeg;base64,AAAA" []) =
   Rejected (newError "This image couldn't be processed due to safety guidelines."))
  /\
  (~ (exists m, message (newError "Blocked: Safety filters triggered") = Some m
                /\ occursIn "Safety" m) ->
   fst (transformToWatercolor w "data:image/jpeg;base64,AAAA" []) =
   Rejected (newError "Network error. Please check your connection and try again.")).
Proof.
  cbv zeta.
  eapply (remote_failure_messages _ "data:image/jpeg;base64,AAAA" []);
    [reflexivity | vm_compute; reflexivity | reflexivity].
Defined.

Example safety_rejection :
  fst (transformToWatercolor
         (sampleWorld (Some "key") (fun _ => inr (newError "Blocked: Safety filters triggered")))
         "data:image/jpeg;base64,AAAA" []) = Rejected (newError msgSafety).
Proof. vm_compute. reflexivity. Qed.

(** The match is on the exact characters. *)
Example lowercase_safety_is_network :
  fst (transformToWatercolor
         (sampleWorld (Some "key") (fun _ => inr (newError "blocked for safety reasons")))
         "data:image/jpeg;base64,AAAA" []) = Rejected (newError msgNetwork).
Proof. vm_compute. reflexivity. Qed.

Example connection_lost :
  fst (transformToWatercolor
         (sampleWorld (Some "key") (fun _ => inr (newError "Failed to fetch")))
         "data:image/jpeg;base64,AAAA" []) = Rejected (newError msgNetwork).
Proof. vm_compute. reflexivity. Qed.

(** When the image loads, the promise is fulfilled with the encoding of a
    canvas of the dimensions [resizeDims] computes. *)
Lemma resizeImage_encodes_resized_canvas w img bound tr wd ht :
  decode w img = Some (wd, ht) ->
  exists canvas,
    resizeImage w img bound tr =
      (Fulfilled (toDataURL w canvas), (tr ++ [LoadImage img])%list) /\
    (canvasWidth canvas, canvasHeight canvas) = Normalizer.resizeDims wd ht bound.
Proof.
  intros Hdec. unfold resizeImage, await, perform, pure. rewrite Hdec.
  destruct (Normalizer.resizeDims wd ht bound) as [width height].
  eexists. split; reflexivity.
Qed.


(** ... and when the image does not load its promise never settles: only
    [onload] resolves it and nothing rejects it. *)
Lemma undecodable_image_never_settles w img bound tr :
  decode w img = None ->
  resizeImage w img bound tr = (Pending, (tr ++ [LoadImage img])%list).
Proof.
  intros Hdec. unfold resizeImage, await, perform, never. now rewrite Hdec.
Qed.

(** C10.  For an image that does not decode, such as the empty data URL of
    a zero-sized canvas, normalization neither fails nor returns: the
    promise of [resizeImage] stays pending, and so does the transformation
    that awaits it, without any remote call. *)
Theorem undecodable_image_hangs :
  resizeImage undecodableWorld "data:," 1024 [] = (Pending, [LoadImage "data:,"])
  /\ transformToWatercolor undecodableWorld "data:," [] = (Pending, [LoadImage "data:,"]).
Proof. split; vm_compute; reflexivity. Qed.


End GeminiServiceFacts.

(* ================================================================== *)
(** * The application controller: reachable states *)
(* ================================================================== *)

Module AppFacts.
Import Js App.
Local Open Scope string_scope.


Lemma replay_reachable history s : replay history = Some s -> reachable history s.
Proof.
  revert s. induction history as [|ev older IH]; cbn [replay]; intros s.
  - intros [= <-]. constructor.
  - destruct (replay older) as [s0|]; [|discriminate].
    intros Hstep. econstructor; [now apply IH | exact Hstep].
Qed.

(** No handler but the start of a capture and its failure writes the
    error; [reset] in particular leaves it as it is. *)
Lemma reset_keeps_error m : error (reset m) = error m.
Proof. reflexivity. Qed.


Lemma invariant_calm history s : calm history s -> invariant history s.
Proof.
  induction 1 as [|history s ev s' _ IH Hcur Hstep]; [now cbn|].
  destruct s as [[st oi ti er sc] infl scr]. unfold invariant in IH. cbn in IH.
  cbn [screen model] in Hcur.
  destruct ev; try (specialize (Hcur eq_refl); subst scr); cbn in Hstep.
  - (* OpenStudio *)
    destruct st; cbn in Hstep; try discriminate.
    injection Hstep as <-. exact IH.
  - (* Back *)
    destruct st; cbn in Hstep; try discriminate.
    injection Hstep as <-. exact IH.
  - (* Capture *)
    destruct st; cbn in Hstep; try discriminate.
    injection Hstep as <-. destruct IH as [-> ->].
    unfold invariant. cbn. now exists imageData.
  - (* Settled *)
    destruct st; try (destruct IH as [-> _]; discriminate).
    destruct IH as (img & -> & -> & Hcap & -> & ->). cbn in Hstep.
    destruct (String.eqb_spec imageData img) as [Heq|Hne]; [subst img|discriminate].
    cbn in Hstep. injection Hstep as <-. unfold invariant.
    destruct outcome as [result|err]; cbn.
    + repeat split. now exists imageData, result.
    + now split.
  - (* Reset *)
    destruct st; cbn in Hstep; try discriminate.
    destruct (truthyOpt ti); [|discriminate].
    injection Hstep as <-. unfold invariant. cbn. now destruct IH.
  - (* ToggleComparison *)
    destruct st; cbn in Hstep; try discriminate.
    destruct (truthyOpt ti); [|discriminate].
    injection Hstep as <-. exact IH.
  - (* ExitComplete *)
    injection Hstep as <-. exact IH.
Qed.


Lemma sampleProcessing_calm : calm sampleCapture sampleProcessing.
Proof.
  unfold sampleCapture.
  eapply calm_step; [eapply calm_step; [eapply calm_step; [apply calm_start| |]| |]| |];
    try reflexivity; try discriminate.
Qed.

Lemma samplePreview_calm : calm sampleHistory samplePreview.
Proof.
  unfold sampleHistory.
  eapply calm_step; [eapply calm_step; [apply sampleProcessing_calm| |]| |];
    try reflexivity; try discriminate.
Qed.


(** In a calm session no error is held in preview, so that none is left
    after [reset]. *)
Lemma reset_from_calm_preview history s :
  calm history s ->
  state (model s) = preview ->
  let m' := reset (model s) in
  originalImage m' = None /\ transformedImage m' = None /\
  error m' = None /\ state m' = camera.
Proof.
  intros Hcalm Hpreview. apply invariant_calm in Hcalm.
  unfold invariant in Hcalm. cbv zeta in Hcalm. rewrite Hpreview in Hcalm.
  destruct Hcalm as (_ & Herr & _). cbn. auto.
Qed.

(** C5.  [reset] clears both images and sets the state to camera, but it
    does not write the error.  After two taps on the shutter (the second
    one while the camera view animates out) of which the first call fails
    and the second is fulfilled, the application is in preview, on the
    screen, with the error of the first call; [reset], clicked there,
    leaves the camera state with that error still held. *)
Theorem reset_keeps_stale_error :
  exists s s',
    reachable staleError s /\
    state (model s) = preview /\ previewRendered (screen s) = true /\
    step Reset s = Some s' /\ model s' = reset (model s) /\
    originalImage (model s') = None /\ transformedImage (model s') = None /\
    state (model s') = camera /\
    error (model s') = Some GeminiService.msgNetwork.
Proof.
  eexists. eexists. split; [apply replay_reachable; vm_compute; reflexivity|].
  vm_compute. repeat split.
Qed.


Example stalePainting_state :
  exists s,
    replay stalePainting = Some s /\
    state (model s) = camera /\
    transformedImage (model s) = Some "data:image/png;base64,iVBORw0KGgo=" /\
    originalImage (model s) = Some "data:image/jpeg;base64,BBBB" /\
    lastCaptured stalePainting = Some "data:image/jpeg;base64,BBBB" /\
    lastFulfilled stalePainting
      = Some ("data:image/jpeg;base64,AAAA", "data:image/png;base64,iVBORw0KGgo=").
Proof. eexists. split; [vm_compute; reflexivity|]. vm_compute. repeat split. Qed.





(** Run to completion, [handleCapture] on an image that does not decode
    leaves the application in the processing state for good. *)
Example undecodable_capture_stays_processing :
  state (handleCapture
           (fst (GeminiService.transformToWatercolor
                   GeminiService.undecodableWorld "data:," []))
           "data:," (setState camera initial)) = processing.
Proof. vm_compute. reflexivity. Qed.

End AppFacts.

(* ================================================================== *)
(** * The capture surface: camera sessions and the captured frame *)
(* ================================================================== *)

Module CameraFacts.
Import Camera.

(** Switching the camera on a mounted, active instance whose render sees
    the stream [id] stops [id] before the new stream is requested. *)
Lemma switch_camera_stops_current s inst id s' :
  mounted s = Some inst ->
  stream (hooks inst) = Some id ->
  isActive inst = true ->
  step SwitchCamera s = Some s' ->
  (id ∉ live (hardware s')) /\
  requests s' = (requests s ++ [(key inst, toggle (facingMode (hooks inst)))])%list.
Proof.
  intros Hm Hs Ha Hstep. unfold step in Hstep. rewrite Hm in Hstep.
  destruct (isSome (error (hooks inst))); [discriminate|].
  unfold runEffect, startCamera_start in Hstep. cbn in Hstep.
  rewrite Hs, Ha in Hstep. cbn in Hstep.
  destruct (stopStream (cleanup inst) (hardware s) _) as [hw0 h0] eqn:H0.
  cbn in Hstep. injection Hstep as <-. cbn. split; [|reflexivity].
  rewrite elem_of_difference, elem_of_singleton. tauto.
Qed.

(** Deactivating through the [isActive] prop stops it as well. *)
Lemma deactivate_stops_current s inst id s' :
  mounted s = Some inst ->
  stream (hooks inst) = Some id ->
  isActive inst = true ->
  step (SetActive false) s = Some s' ->
  id ∉ live (hardware s').
Proof.
  intros Hm Hs Ha Hstep. unfold step in Hstep. rewrite Hm, Ha in Hstep.
  cbn in Hstep. unfold runEffect in Hstep. cbn in Hstep. rewrite Hs in Hstep.
  destruct (stopStream (cleanup inst) (hardware s) _) as [hw0 h0] eqn:H0.
  cbn in Hstep. injection Hstep as <-. cbn.
  rewrite elem_of_difference, elem_of_singleton. tauto.
Qed.

(** The cleanup registered at mount is the [stopStream] of the first
    render: it has seen no stream, and no later render replaces it unless
    [isActive] or [facingMode] changes. *)
Lemma mount_cleanup_sees_no_stream active s s' :
  step (Mount active) s = Some s' ->
  exists inst, mounted s' = Some inst /\ cleanup inst = None.
Proof.
  unfold step. destruct (mounted s); [discriminate|].
  unfold runEffect, startCamera_start, stopStream. cbn.
  destruct active; intros [= <-]; cbn; eauto.
Qed.

(** Unmounting stops the stream its cleanup has seen and no other. *)
Lemma unmount_stops_only_what_cleanup_saw s inst id s' :
  mounted s = Some inst ->
  id ∈ live (hardware s) ->
  cleanup inst <> Some id ->
  step Unmount s = Some s' ->
  mounted s' = None /\ id ∈ live (hardware s').
Proof.
  intros Hm Hlive Hseen Hstep. unfold step in Hstep. rewrite Hm in Hstep.
  unfold stopStream in Hstep. destruct (cleanup inst) as [seen|].
  - injection Hstep as <-. cbn. split; [reflexivity|].
    rewrite elem_of_difference, elem_of_singleton. split; [exact Hlive|congruence].
  - injection Hstep as <-. cbn. auto.
Qed.

(** C8.  Unmounting does not stop the stream in use: the cleanup the effect
    returned is the [stopStream] of the first render, which saw no stream.
    After mount, grant, unmount, stream 0 is still live with no component
    mounted; a second mount and grant then gives two live streams. *)
Theorem unmount_leaves_stream_live :
  (exists s,
      run [Mount true; Granted false; Unmount] start = Some s /\
      mounted s = None /\ live (hardware s) = {[ 0%nat ]})
  /\
  (exists s,
      run [Mount true; Granted false; Unmount; Mount true; Granted false] start = Some s /\
      size (live (hardware s)) = 2%nat).
Proof.
  split; eexists; (split; [vm_compute; reflexivity|]).
  - split; vm_compute; reflexivity.
  - vm_compute. reflexivity.
Qed.

(** A second switch before the first request is granted leaks as well. *)
Example early_switch_leaves_two_streams :
  option_map (fun s => size (live (hardware s)))
             (run [Mount true; SwitchCamera; Granted false; Granted false] start)
  = Some 2%nat.
Proof. vm_compute. reflexivity. Qed.

(** Mount, grant, switch, grant: one live stream, the second. *)
Example switch_keeps_one_stream :
  option_map (fun s => live (hardware s))
             (run [Mount true; Granted false; SwitchCamera; Granted true] start)
  = Some {[ 1%nat ]}.
Proof. vm_compute. reflexivity. Qed.

Section Capture.
Local Open Scope Z_scope.
Variable Pixel : Type.
Variable toDataURL : list (list (option Pixel)) -> string -> Q -> string.

Lemma In_indices n X : In X (indices n) <-> 0 <= X < n.
Proof.
  unfold indices. rewrite in_map_iff. split.
  - intros (k & <- & Hk). apply in_seq in Hk. lia.
  - intros HX. exists (Z.to_nat X). split; [lia|]. apply in_seq. lia.
Qed.

Lemma rev_seq N : rev (seq 0 N) = map (fun k => (N - 1 - k)%nat) (seq 0 N).
Proof.
  induction N as [|N IH]; [reflexivity|].
  rewrite seq_S at 1. rewrite rev_app_distr. cbn [rev app Nat.add].
  cbn [seq map]. rewrite <- seq_shift, map_map, IH. f_equal; [lia|].
  apply map_ext. intros k. lia.
Qed.

Lemma rev_indices n : rev (indices n) = map (fun X => n - 1 - X) (indices n).
Proof.
  unfold indices. rewrite <- map_rev, rev_seq, !map_map.
  apply map_ext_in. intros k Hk. apply in_seq in Hk. lia.
Qed.

Lemma length_indices n : length (indices n) = Z.to_nat n.
Proof. unfold indices. now rewrite length_map, length_seq. Qed.

(** [translate(width, 0)] then [scale(-1, 1)] from the identity. *)
Lemma front_transform width :
  scale (-1) 1 (translate width 0 identity) =
  {| sx := -1; sy := 1; tx := width; ty := 0 |}.
Proof. unfold scale, translate, identity. cbn [sx sy tx ty]. f_equal; lia. Qed.

Lemma sourceCoord_plain X : sourceCoord 1 0 X = X.
Proof. unfold sourceCoord. cbn [Z.ltb Z.compare]. lia. Qed.

Lemma sourceCoord_flipped width X : sourceCoord (-1) width X = width - 1 - X.
Proof. unfold sourceCoord. cbn [Z.ltb Z.compare]. lia. Qed.

(** C9.  With the front camera the bitmap that is encoded is the sensor
    frame mirrored left to right, with the back camera it is the sensor
    frame itself; in both cases it has [videoHeight] rows of
    [videoWidth] pixels, and it is what [capturePhoto] hands to the
    encoder. *)
Theorem front_capture_is_mirrored (video : Video Pixel) :
  captureBitmap video user = mirror (sensorFrame video)
  /\ captureBitmap video environment = sensorFrame video
  /\ (forall mode,
         length (captureBitmap video mode) = Z.to_nat (videoHeight video) /\
         Forall (fun row => length row = Z.to_nat (videoWidth video))
                (captureBitmap video mode))
  /\ capturePhoto toDataURL (Some video) true true user =
     Some (toDataURL (mirror (sensorFrame video)) "image/jpeg"%string (95 # 100)%Q)
  /\ capturePhoto toDataURL (Some video) true true environment =
     Some (toDataURL (sensorFrame video) "image/jpeg"%string (95 # 100)%Q).
Proof.
  assert (Hfront : captureBitmap video user = mirror (sensorFrame video)).
  { unfold captureBitmap. rewrite front_transform.
    unfold drawImage, mirror, sensorFrame. cbn [sx sy tx ty].
    rewrite map_map. apply map_ext_in. intros Y HY. apply In_indices in HY.
    rewrite <- map_rev, rev_indices, map_map.
    apply map_ext_in. intros X HX. apply In_indices in HX.
    rewrite sourceCoord_flipped, sourceCoord_plain.
    replace ((0 <=? videoWidth video - 1 - X) && (videoWidth video - 1 - X <? videoWidth video)
             && (0 <=? Y) && (Y <? videoHeight video)) with true; [reflexivity|].
    symmetry. rewrite !andb_true_iff. repeat split; lia. }
  assert (Hback : captureBitmap video environment = sensorFrame video).
  { unfold captureBitmap, drawImage, sensorFrame.
    cbn [identity sx sy tx ty].
    apply map_ext_in. intros Y HY. apply In_indices in HY.
    apply map_ext_in. intros X HX. apply In_indices in HX.
    rewrite !sourceCoord_plain.
    replace ((0 <=? X) && (X <? videoWidth video)
             && (0 <=? Y) && (Y <? videoHeight video)) with true; [reflexivity|].
    symmetry. rewrite !andb_true_iff. repeat split; lia. }
  split; [exact Hfront|]. split; [exact Hback|]. split.
  - intros mode. unfold captureBitmap, drawImage. split.
    + now rewrite length_map, length_indices.
    + apply List.Forall_forall. intros row Hrow. apply in_map_iff in Hrow.
      destruct Hrow as (Y & <- & _). now rewrite length_map, length_indices.
  - unfold capturePhoto. cbn [andb]. now rewrite Hfront, Hback.
Qed.

End Capture.

Example selfie_3x2 :
  captureBitmap {| videoWidth := 3; videoHeight := 2;
                   frame := fun x y => (10 * y + x)%Z |} user
  = [[Some 2; Some 1; Some 0]; [Some 12; Some 11; Some 10]]%Z.
Proof. vm_compute. reflexivity. Qed.

End CameraFacts.


(* ================================================================== *)
(** * More on the normalizer: shape of the result *)
(* ================================================================== *)

Module NormalizerMore.
Import Number NumberFacts Normalizer NormalizerFacts.

(** The three ways [resizeDims] can go. *)
Lemma resizeDims_shape W H B :
  0 <= W < 2 ^ 32 -> 0 <= H < 2 ^ 32 -> 1 <= B < 2 ^ 32 ->
  B * Z.max W H <= 2 ^ 51 ->
  (Z.max W H <= B /\ resizeDims W H B = (W, H))
  \/ (H < W /\ B < W /\
      exists t, resizeDims W H B = (B, t) /\
                H * B - W <= t * W <= H * B /\ 0 <= t <= B)
  \/ (W <= H /\ B < H /\
      exists t, resizeDims W H B = (t, B) /\
                W * B - H <= t * H <= W * B /\ 0 <= t <= B).
Proof.
  intros HW HH HB Hprod. unfold resizeDims. rewrite !gt_inject.
  destruct (Z.ltb_spec H W) as [Hlt|Hge].
  - rewrite Z.max_l in * by lia.
    destruct (Z.ltb_spec B W) as [Hbig|Hsmall]; cbv zeta.
    + right. left.
      pose proof (bound_small B W ltac:(lia) Hbig Hprod) as Hb.
      destruct (scaled_canvas_dim 150 H W B ltac:(lia) ltac:(lia) ltac:(lia) Hprod)
        as (_ & Ht & Ht0).
      rewrite (setCanvasDimension_inject 300 B) by lia.
      repeat split; try lia. eexists. repeat split; try apply Ht; lia.
    + left.
      pose proof (side_small W B W ltac:(lia) Hsmall Hprod).
      pose proof (side_small H B W ltac:(lia) Hsmall Hprod).
      rewrite !setCanvasDimension_inject by lia. split; [lia|reflexivity].
  - rewrite Z.max_r in * by lia.
    destruct (Z.ltb_spec B H) as [Hbig|Hsmall]; cbv zeta.
    + right. right.
      pose proof (bound_small B H ltac:(lia) Hbig Hprod) as Hb.
      destruct (scaled_canvas_dim 300 W H B ltac:(lia) ltac:(lia) ltac:(lia) Hprod)
        as (_ & Ht & Ht0).
      rewrite (setCanvasDimension_inject 150 B) by lia.
      repeat split; try lia. eexists. repeat split; try apply Ht; lia.
    + left.
      pose proof (side_small W B H ltac:(lia) Hsmall Hprod).
      pose proof (side_small H B H ltac:(lia) Hsmall Hprod).
      rewrite !setCanvasDimension_inject by lia. split; [lia|reflexivity].
Qed.

(** X1.  Normalizing is idempotent: the dimensions it produces are left
    unchanged by a second pass with the same bound. *)
Theorem resizeDims_idempotent W H B :
  0 <= W < 2 ^ 32 -> 0 <= H < 2 ^ 32 -> 1 <= B < 2 ^ 32 ->
  B * Z.max W H <= 2 ^ 51 ->
  resizeDims (fst (resizeDims W H B)) (snd (resizeDims W H B)) B = resizeDims W H B.
Proof.
  intros HW HH HB Hprod.
  assert (Hfix : forall w h, 0 <= w < 2 ^ 26 -> 0 <= h < 2 ^ 26 -> Z.max w h <= B ->
                             resizeDims w h B = (w, h)).
  { intros w h Hw Hh Hmax. unfold resizeDims. rewrite !gt_inject.
    destruct (Z.ltb_spec h w); [destruct (Z.ltb_spec B w)|destruct (Z.ltb_spec B h)];
      try lia; cbv zeta; now rewrite !setCanvasDimension_inject by lia. }
  destruct (resizeDims_shape W H B HW HH HB Hprod)
    as [[Hmax ->] | [(? & Hbig & t & -> & _ & Ht) | (? & Hbig & t & -> & _ & Ht)]];
    cbn [fst snd].
  - pose proof (side_small W B (Z.max W H) ltac:(lia) Hmax Hprod).
    pose proof (side_small H B (Z.max W H) ltac:(lia) Hmax Hprod).
    apply Hfix; lia.
  - rewrite Z.max_l in Hprod by lia.
    pose proof (bound_small B W ltac:(lia) Hbig Hprod). apply Hfix; lia.
  - rewrite Z.max_r in Hprod by lia.
    pose proof (bound_small B H ltac:(lia) Hbig Hprod). apply Hfix; lia.
Qed.

Lemma resizeDims_idempotent_witness :
  resizeDims (fst (resizeDims 1122 1122 1024)) (snd (resizeDims 1122 1122 1024)) 1024
  = resizeDims 1122 1122 1024.
Proof. apply (resizeDims_idempotent 1122 1122 1024); lia. Defined.



(** X3.  A side can collapse: when an image wider than the bound is more
    than [B] times as wide as it is high, the scaled height is 0 pixels;
    likewise for the width of a tall image. *)
Theorem resizeDims_collapses_thin_images W H B :
  0 <= W < 2 ^ 32 -> 0 <= H < 2 ^ 32 -> 1 <= B < 2 ^ 32 ->
  B * Z.max W H <= 2 ^ 51 ->
  (B < W -> H * B < W -> resizeDims W H B = (B, 0)) /\
  (B < H -> W * B < H -> resizeDims W H B = (0, B)).
Proof.
  intros HW HH HB Hprod.
  destruct (resizeDims_shape W H B HW HH HB Hprod)
    as [[Hmax Heq] | [(? & ? & t & Heq & Hb & Ht) | (? & ? & t & Heq & Hb & Ht)]];
    rewrite Heq; split; intros Hbig Hthin; try lia; try nia.
  - assert (t = 0) by nia. now subst t.
  - assert (t = 0) by nia. now subst t.
Qed.

Lemma resizeDims_collapses_thin_images_witness :
  (1024 < 4000 -> 3 * 1024 < 4000 -> resizeDims 4000 3 1024 = (1024, 0)) /\
  (1024 < 3 -> 4000 * 1024 < 3 -> resizeDims 4000 3 1024 = (0, 1024)).
Proof. apply (resizeDims_collapses_thin_images 4000 3 1024); lia. Defined.

(** X4.  No side collapses when the shorter side times the bound is at
    least twice the longer side: both output dimensions are then at least
    one pixel. *)
Theorem resizeDims_keeps_both_sides W H B :
  1 <= W < 2 ^ 32 -> 1 <= H < 2 ^ 32 -> 1 <= B < 2 ^ 32 ->
  B * Z.max W H <= 2 ^ 51 ->
  2 * Z.max W H <= Z.min W H * B ->
  1 <= fst (resizeDims W H B) /\ 1 <= snd (resizeDims W H B).
Proof.
  intros HW HH HB Hprod Hratio.
  destruct (resizeDims_shape W H B ltac:(lia) ltac:(lia) HB Hprod)
    as [[Hmax ->] | [(Hlt & Hbig & t & -> & Hb & Ht) | (Hle & Hbig & t & -> & Hb & Ht)]];
    cbn [fst snd]; clear Hprod.
  - lia.
  - replace (Z.max W H) with W in Hratio by lia.
    replace (Z.min W H) with H in Hratio by lia.
    split; [lia|].
    destruct (Z.le_gt_cases 1 t) as [|Hzero]; [assumption|].
    assert (t = 0) by lia. subst t. lia.
  - replace (Z.max W H) with H in Hratio by lia.
    replace (Z.min W H) with W in Hratio by lia.
    split; [|lia].
    destruct (Z.le_gt_cases 1 t) as [|Hzero]; [assumption|].
    assert (t = 0) by lia. subst t. lia.
Qed.

Lemma resizeDims_keeps_both_sides_witness :
  1 <= fst (resizeDims 4032 3024 1024) /\ 1 <= snd (resizeDims 4032 3024 1024).
Proof. apply (resizeDims_keeps_both_sides 4032 3024 1024); lia. Defined.

(** X5.  Turning a non-square image by a quarter turn turns the result:
    width and height are treated alike, as long as the dimensions stay in
    the range where the canvas keeps what it is given (the two attributes
    have different defaults above it).  For a square image it is always
    the width that is scaled. *)
Theorem resizeDims_transposes W H B :
  0 <= W < 2 ^ 32 -> 0 <= H < 2 ^ 32 -> 1 <= B < 2 ^ 32 ->
  B * Z.max W H <= 2 ^ 51 ->
  W <> H ->
  resizeDims H W B = (snd (resizeDims W H B), fst (resizeDims W H B)).
Proof.
  intros HW HH HB Hprod Hne. unfold resizeDims. rewrite !gt_inject.
  destruct (Z.ltb_spec H W) as [Hlt|Hge], (Z.ltb_spec W H); try lia.
  - rewrite Z.max_l in * by lia.
    destruct (Z.ltb_spec B W) as [Hbig|Hsmall]; cbv zeta; cbn [fst snd].
    + pose proof (bound_small B W ltac:(lia) Hbig Hprod) as Hb.
      destruct (scaled_canvas_dim 150 H W B ltac:(lia) ltac:(lia) ltac:(lia) Hprod)
        as (-> & _ & _).
      destruct (scaled_canvas_dim 300 H W B ltac:(lia) ltac:(lia) ltac:(lia) Hprod)
        as (-> & _ & _).
      now rewrite !setCanvasDimension_inject by lia.
    + pose proof (side_small W B W ltac:(lia) Hsmall Hprod).
      pose proof (side_small H B W ltac:(lia) Hsmall Hprod).
      now rewrite !setCanvasDimension_inject by lia.
  - rewrite Z.max_r in * by lia.
    destruct (Z.ltb_spec B H) as [Hbig|Hsmall]; cbv zeta; cbn [fst snd].
    + pose proof (bound_small B H ltac:(lia) Hbig Hprod) as Hb.
      destruct (scaled_canvas_dim 150 W H B ltac:(lia) ltac:(lia) ltac:(lia) Hprod)
        as (-> & _ & _).
      destruct (scaled_canvas_dim 300 W H B ltac:(lia) ltac:(lia) ltac:(lia) Hprod)
        as (-> & _ & _).
      now rewrite !setCanvasDimension_inject by lia.
    + pose proof (side_small W B H ltac:(lia) Hsmall Hprod).
      pose proof (side_small H B H ltac:(lia) Hsmall Hprod).
      now rewrite !setCanvasDimension_inject by lia.
Qed.

Lemma resizeDims_transposes_witness :
  resizeDims 1080 1920 1024 = (snd (resizeDims 1920 1080 1024), fst (resizeDims 1920 1080 1024)).
Proof. apply (resizeDims_transposes 1920 1080 1024); lia. Defined.

(** Outside that range the quarter turn is lost: a 3000000000 by
    2000000000 image under the bound 4000000000 is given a canvas 300
    pixels wide, its transpose one 150 pixels high. *)
Example resizeDims_defaults_differ :
  resizeDims 3000000000 2000000000 4000000000 = (300, 2000000000) /\
  resizeDims 2000000000 3000000000 4000000000 = (2000000000, 150).
Proof. split; vm_compute; reflexivity. Qed.

End NormalizerMore.

(* ================================================================== *)
(** * More on the transformation client *)
(* ================================================================== *)

Module GeminiServiceMore.
Import Js GeminiService GeminiServiceFacts.
Local Open Scope string_scope.

Lemma prefix_empty s : String.prefix "" s = true.
Proof. now destruct s. Qed.

Lemma no_comma_cons c s :
  includes (String c s) "," = false ->
  Ascii.eqb c "," = false /\ includes s "," = false.
Proof.
  cbn [includes]. intros H. apply orb_false_iff in H as [Hp Hs].
  split; [|exact Hs]. cbn in Hp.
  destruct (Ascii.ascii_dec "," c) as [<-|Hne].
  - now rewrite prefix_empty in Hp.
  - apply Ascii.eqb_neq. congruence.
Qed.

Lemma split_without_separator s :
  includes s "," = false -> split "," s = [s].
Proof.
  induction s as [|c s IH]; [reflexivity|].
  intros H. apply no_comma_cons in H as [Hc Hs].
  cbn [split]. now rewrite Hc, (IH Hs).
Qed.

Lemma split_at_first_separator header rest :
  includes header "," = false ->
  split "," (header ++ "," ++ rest) = header :: split "," rest.
Proof.
  induction header as [|c header IH]; intros H.
  - reflexivity.
  - apply no_comma_cons in H as [Hc Hs].
    change (String c header ++ "," ++ rest) with (String c (header ++ "," ++ rest)).
    cbn [split]. now rewrite Hc, (IH Hs).
Qed.

(** X6.  From a data URL [header,body] the client sends the body: the
    header up to the first comma is dropped.  A string without a comma has
    no payload at all (the request then carries no data). *)
Theorem payload_drops_the_header header body :
  includes header "," = false ->
  includes body "," = false ->
  payload (header ++ "," ++ body) = Some body /\ payload header = None.
Proof.
  intros Hh Hb. unfold payload. split.
  - rewrite (split_at_first_separator _ _ Hh), (split_without_separator _ Hb).
    reflexivity.
  - now rewrite (split_without_separator _ Hh).
Qed.

Lemma payload_drops_the_header_witness :
  payload ("data:image/jpeg;base64" ++ "," ++ "/9j/4AAQSkZJRg==") = Some "/9j/4AAQSkZJRg=="
  /\ payload "data:image/jpeg;base64" = None.
Proof. apply payload_drops_the_header; reflexivity. Defined.

(** What the client answers once the remote model has responded. *)
Lemma outcome_of_response w img tr opt tr' response :
  truthyOpt (API_KEY w) = true ->
  resizeImage w img 1024 tr = (Fulfilled opt, tr') ->
  generateContent w (buildRequest (payload opt)) = inl response ->
  fst (transformToWatercolor w img tr) =
  let url := scanParts (responseParts response) "" in
  if truthy url then Fulfilled url else Rejected (newError msgNetwork).
Proof.
  intros Hkey Hresize Hremote.
  unfold transformToWatercolor. rewrite Hkey. cbn [negb].
  unfold await at 1. rewrite Hresize.
  unfold tryCatch, await, callGenerateContent, await, perform.
  rewrite Hremote. unfold pure. cbv zeta.
  destruct (truthy (scanParts (responseParts response) "")); reflexivity.
Qed.

(** X7.  Only the first candidate of a response is read: when it carries no
    image, images in later candidates are not found and the call is
    rejected. *)
Theorem later_candidates_are_ignored w img tr opt tr' first others :
  truthyOpt (API_KEY w) = true ->
  resizeImage w img 1024 tr = (Fulfilled opt, tr') ->
  generateContent w (buildRequest (payload opt)) =
    inl {| candidates := Some (first :: others) |} ->
  Forall (fun p => inlineData p = None)
         (responseParts {| candidates := Some [first] |}) ->
  fst (transformToWatercolor w img tr) = Rejected (newError msgNetwork).
Proof.
  intros Hkey Hresize Hremote Hnone.
  rewrite (outcome_of_response _ _ _ _ _ _ Hkey Hresize Hremote). cbv zeta.
  change (responseParts {| candidates := Some (first :: others) |})
    with (responseParts {| candidates := Some [first] |}).
  now rewrite (scanParts_no_image _ _ Hnone).
Qed.

Lemma later_candidates_are_ignored_witness :
  fst (transformToWatercolor
         (sampleWorld (Some "key")
            (fun _ => inl {| candidates :=
                               Some [ {| content := Some {| parts := Some [textPart "no image"] |} |};
                                      {| content := Some {| parts := Some [imagePart "iVBORw0KGgo="] |} |} ] |}))
         "data:image/jpeg;base64,AAAA" [])
  = Rejected (newError msgNetwork).
Proof.
  eapply (later_candidates_are_ignored _ "data:image/jpeg;base64,AAAA" []);
    [reflexivity | vm_compute; reflexivity | reflexivity |].
  repeat constructor.
Defined.

(** The effects of a call started with no effects behind it. *)
Lemma effects_of_call w img :
  let tr := snd (transformToWatercolor w img []) in
  (truthyOpt (API_KEY w) = false /\ tr = [])
  \/ (decode w img = None /\ tr = [LoadImage img])
  \/ (exists wd ht canvas rest,
        truthyOpt (API_KEY w) = true /\
        decode w img = Some (wd, ht) /\
        (canvasWidth canvas, canvasHeight canvas) = Normalizer.resizeDims wd ht 1024 /\
        tr = LoadImage img :: RemoteCall (buildRequest (payload (toDataURL w canvas))) :: rest /\
        Forall (fun ev => isRemoteCall ev = false) rest).
Proof.
  cbv zeta. unfold transformToWatercolor.
  destruct (truthyOpt (API_KEY w)) eqn:Hkey; cbn [negb]; [|left; now split].
  right. unfold await at 1, resizeImage, await, perform, pure, never.
  destruct (decode w img) as [[wd ht]|] eqn:Hdec; [|left; now split].
  right. exists wd, ht.
  destruct (Normalizer.resizeDims wd ht 1024) as [width height] eqn:Hdims.
  exists {| canvasWidth := width; canvasHeight := height;
            drawn := if getContext2d w then Some img else None |}.
  unfold tryCatch, await, callGenerateContent, await, perform, throw, pure.
  cbn [app canvasWidth canvasHeight].
  destruct (generateContent w _) as [response|reason].
  - destruct (negb (truthy _)); cbn [fst snd app]; eexists;
      (split; [reflexivity|split; [reflexivity|split; [reflexivity|split; [reflexivity|]]]]);
      repeat constructor.
  - destruct (mentionsSafety reason); cbn [fst snd app]; eexists;
      (split; [reflexivity|split; [reflexivity|split; [reflexivity|split; [reflexivity|]]]]);
      repeat constructor.
Qed.

(** X8.  A call of [transformToWatercolor] makes at most one remote call (no
    retry), and none when the key is missing or the image does not load. *)
Theorem at_most_one_remote_call w img :
  let calls := List.filter isRemoteCall (snd (transformToWatercolor w img [])) in
  (length calls <= 1)%nat /\
  (truthyOpt (API_KEY w) = false \/ decode w img = None -> calls = []).
Proof.
  cbv zeta.
  assert (Hrest : forall rest, Forall (fun ev => isRemoteCall ev = false) rest ->
                               List.filter isRemoteCall rest = []).
  { intros rest Hall. induction Hall as [|ev rest Hev _ IH]; [reflexivity|].
    cbn [List.filter]. now rewrite Hev. }
  destruct (effects_of_call w img)
    as [[Hkey ->] | [[Hdec ->] | (wd & ht & canvas & rest & Hkey & Hdec & _ & -> & Hall)]].
  - split; [cbn; lia | reflexivity].
  - split; [cbn; lia | reflexivity].
  - cbn [List.filter isRemoteCall]. rewrite (Hrest _ Hall). split; [cbn; lia|].
    intros [H|H]; congruence.
Qed.

(** X9.  What a remote call carries: the fixed model name and prompt, and as
    image the payload of the canvas the normalizer encoded, never the
    captured image itself; for an image of unsigned-long dimensions that
    canvas is at most 1024 pixels on its longer side. *)
Theorem remote_call_carries_normalized_image w img req :
  In (RemoteCall req) (snd (transformToWatercolor w img [])) ->
  exists wd ht canvas,
    decode w img = Some (wd, ht) /\
    (canvasWidth canvas, canvasHeight canvas) = Normalizer.resizeDims wd ht 1024 /\
    req = buildRequest (payload (toDataURL w canvas)) /\
    model req = "gemini-2.5-flash-image" /\
    map text (contents req) = [None; Some prompt] /\
    (0 <= wd < 2 ^ 32 -> 0 <= ht < 2 ^ 32 ->
     Z.max (canvasWidth canvas) (canvasHeight canvas) <= 1024)%Z.
Proof.
  intros Hin.
  destruct (effects_of_call w img)
    as [[Hkey Htr] | [[Hdec Htr] | (wd & ht & canvas & rest & Hkey & Hdec & Hdims & Htr & Hall)]];
    cbv zeta in Htr; rewrite Htr in Hin.
  - destruct Hin.
  - destruct Hin as [Hin|[]]. discriminate.
  - exists wd, ht, canvas.
    assert (Hreq : req = buildRequest (payload (toDataURL w canvas))).
    { destruct Hin as [Hin|[Hin|Hin]]; [discriminate|congruence|].
      rewrite List.Forall_forall in Hall. apply Hall in Hin. discriminate. }
    split; [exact Hdec|]. split; [exact Hdims|]. split; [exact Hreq|].
    subst req. split; [reflexivity|]. split; [reflexivity|].
    intros Hwd Hht.
    destruct (NormalizerMore.resizeDims_shape wd ht 1024 Hwd Hht ltac:(lia) ltac:(lia))
      as [[Hmax Heq] | [(_ & _ & t & Heq & _ & Ht) | (_ & _ & t & Heq & _ & Ht)]];
      rewrite Heq in Hdims; injection Hdims as -> ->; lia.
Qed.

Lemma remote_call_carries_normalized_image_witness :
  exists wd ht canvas,
    decode (sampleWorld (Some "key") (fun _ => inl (respond [imagePart "iVBORw0KGgo="])))
           "data:image/jpeg;base64,AAAA" = Some (wd, ht) /\
    (canvasWidth canvas, canvasHeight canvas) = Normalizer.resizeDims wd ht 1024 /\
    buildRequest (Some "/9j/4AAQ") =
      buildRequest (payload (toDataURL (sampleWorld (Some "key")
                                          (fun _ => inl (respond [imagePart "iVBORw0KGgo="])))
                                       canvas)) /\
    model (buildRequest (Some "/9j/4AAQ")) = "gemini-2.5-flash-image" /\
    map text (contents (buildRequest (Some "/9j/4AAQ"))) = [None; Some prompt] /\
    (0 <= wd < 2 ^ 32 -> 0 <= ht < 2 ^ 32 ->
     Z.max (canvasWidth canvas) (canvasHeight canvas) <= 1024)%Z.
Proof.
  apply (remote_call_carries_normalized_image
           (sampleWorld (Some "key") (fun _ => inl (respond [imagePart "iVBORw0KGgo="])))
           "data:image/jpeg;base64,AAAA").
  vm_compute. right. left. reflexivity.
Defined.



End GeminiServiceMore.

(* ================================================================== *)
(** * More on the application controller *)
(* ================================================================== *)

Module AppMore.
Import Js App AppFacts.
Local Open Scope string_scope.



(** X11.  Only the start of a capture clears the error and only a failed
    transformation sets it: going back, reopening the studio, a fulfilled
    transformation, reset and the comparison toggle leave it as it is. *)
Theorem error_changes_only_with_a_capture ev s s' :
  step ev s = Some s' ->
  match ev with
  | Capture _ => error (model s') = None
  | Settled _ (inr err) => error (model s') = Some (userMessage err)
  | _ => error (model s') = error (model s)
  end.
Proof.
  destruct s as [m infl scr]. destruct ev; cbn [step model inflight screen].
  - destruct (isState idle scr); intros [= <-]; reflexivity.
  - destruct (isState camera scr); intros [= <-]; reflexivity.
  - destruct (isState camera scr); intros [= <-]; reflexivity.
  - destruct (existsb (String.eqb imageData) infl); [|discriminate].
    destruct outcome; intros [= <-]; reflexivity.
  - destruct (previewRendered scr); intros [= <-]; reflexivity.
  - destruct (previewRendered scr); intros [= <-]; reflexivity.
  - intros [= <-]; reflexivity.
Qed.

Lemma error_changes_only_with_a_capture_witness :
  exists failed back,
    step (Settled "data:image/jpeg;base64,AAAA" (inr (newError GeminiService.msgNetwork)))
         sampleProcessing = Some failed /\
    step Back failed = Some back /\
    error (model back) = error (model failed).
Proof.
  eexists. eexists. split; [reflexivity|]. split; [reflexivity|].
  apply (error_changes_only_with_a_capture Back). reflexivity.
Defined.

(** The comparison flag is raised in preview only, in a calm session. *)
Lemma comparison_only_in_preview history s :
  calm history s ->
  state (model s) <> preview -> showComparison (model s) = false.
Proof.
  induction 1 as [|history s ev s' Hcalm IH Hcur Hstep]; [reflexivity|].
  apply invariant_calm in Hcalm. unfold invariant in Hcalm.
  destruct s as [[st oi ti er sc] infl scr].
  cbn [model state showComparison inflight screen] in IH, Hcalm, Hcur.
  destruct ev; try (specialize (Hcur eq_refl); subst scr); cbn in Hstep.
  - destruct st; cbn in Hstep; try discriminate.
    injection Hstep as <-. intros _. now apply IH.
  - destruct st; cbn in Hstep; try discriminate.
    injection Hstep as <-. intros _. now apply IH.
  - destruct st; cbn in Hstep; try discriminate.
    injection Hstep as <-. intros _. now apply IH.
  - destruct (existsb (String.eqb imageData) infl) eqn:Hin; [|discriminate].
    destruct outcome; injection Hstep as <-; cbn; [congruence|].
    intros _. apply IH. intros ->.
    (* a call in flight in preview: excluded by the invariant *)
    destruct Hcalm as [Hnone _]. subst infl. discriminate.
  - destruct st; cbn in Hstep; try discriminate.
    destruct (truthyOpt ti); [|discriminate]. now injection Hstep as <-.
  - destruct st; cbn in Hstep; try discriminate.
    destruct (truthyOpt ti); [|discriminate]. injection Hstep as <-. cbn. congruence.
  - injection Hstep as <-. exact IH.
Qed.

(** X12.  As long as no click lands on a view that is leaving the screen,
    at most one transformation is in flight at any time, and one is in
    flight exactly while the state is processing. *)
Theorem at_most_one_inflight history s :
  calm history s ->
  (length (inflight s) <= 1)%nat /\
  (state (model s) = processing <-> inflight s <> []).
Proof.
  intros Hcalm. apply invariant_calm in Hcalm.
  unfold invariant in Hcalm. cbv zeta in Hcalm.
  destruct (state (model s)).
  - destruct Hcalm as [-> _]. cbn. split; [lia|]. split; [discriminate|congruence].
  - destruct Hcalm as [-> _]. cbn. split; [lia|]. split; [discriminate|congruence].
  - destruct Hcalm as (img & -> & _). cbn. split; [lia|]. split; [discriminate|reflexivity].
  - destruct Hcalm as (-> & _). cbn. split; [lia|]. split; [discriminate|congruence].
Qed.

Lemma at_most_one_inflight_witness :
  (length (inflight sampleProcessing) <= 1)%nat /\
  (state (model sampleProcessing) = processing <-> inflight sampleProcessing <> []).
Proof.
  apply (at_most_one_inflight sampleCapture).
  exact sampleProcessing_calm.
Defined.

(** Without that proviso calls pile up: a second tap on the camera view
    while it animates out starts a second call beside the first. *)
Example captures_can_overlap :
  exists s, reachable overlappingCaptures s /\
            inflight s = ["data:image/jpeg;base64,AAAA"; "data:image/jpeg;base64,BBBB"].
Proof.
  eexists. split; [apply replay_reachable; vm_compute; reflexivity | reflexivity].
Qed.

(** X14.  In a session without clicks on leaving views, when a
    transformation is fulfilled the preview opens on the painting, not on
    the original: the comparison flag is down whenever the state is not
    preview. *)
Theorem preview_opens_on_result history s img result s' :
  calm history s ->
  step (Settled img (inl result)) s = Some s' ->
  state (model s') = preview /\ displayedImage (model s') = Some result.
Proof.
  intros Hcalm Hstep.
  pose proof (comparison_only_in_preview history s Hcalm) as Hflag.
  apply invariant_calm in Hcalm. unfold invariant in Hcalm. cbv zeta in Hcalm.
  destruct s as [m infl scr]. cbn [step model inflight screen] in *.
  destruct (existsb (String.eqb img) infl) eqn:Hin; [|discriminate].
  injection Hstep as <-. cbn [model render]. split; [reflexivity|].
  unfold displayedImage. cbn.
  rewrite Hflag; [reflexivity|]. intros Hpreview. rewrite Hpreview in Hcalm.
  destruct Hcalm as [-> _]. discriminate.
Qed.

Lemma preview_opens_on_result_witness :
  exists s',
    step (Settled "data:image/jpeg;base64,AAAA" (inl "data:image/png;base64,iVBORw0KGgo="))
         sampleProcessing = Some s' /\
    state (model s') = preview /\
    displayedImage (model s') = Some "data:image/png;base64,iVBORw0KGgo=".
Proof.
  eexists. split; [reflexivity|].
  apply (preview_opens_on_result sampleCapture sampleProcessing
           "data:image/jpeg;base64,AAAA");
    [exact sampleProcessing_calm | reflexivity].
Defined.

(** X15.  In a session without clicks on leaving views, whenever the
    preview view is rendered the image it shows exists, also in comparison
    mode (the non-null assertion on [originalImage] at line 197 never
    meets null): it is the last captured image or its painting. *)
Theorem preview_image_is_present history s :
  calm history s ->
  previewRendered (model s) = true ->
  exists img result,
    lastCaptured history = Some img /\
    lastFulfilled history = Some (img, result) /\
    displayedImage (model s) = Some (if showComparison (model s) then img else result).
Proof.
  intros Hcalm Hview. apply invariant_calm in Hcalm.
  unfold invariant in Hcalm. cbv zeta in Hcalm.
  unfold previewRendered, isState in Hview.
  destruct (state (model s)); try discriminate.
  destruct Hcalm as (_ & _ & img & result & Horig & Htrans & Hcap & Hful).
  exists img, result. split; [exact Hcap|]. split; [exact Hful|].
  unfold displayedImage. now destruct (showComparison (model s)).
Qed.

Lemma preview_image_is_present_witness :
  exists img result,
    lastCaptured sampleHistory = Some img /\
    lastFulfilled sampleHistory = Some (img, result) /\
    displayedImage (model samplePreview)
      = Some (if showComparison (model samplePreview) then img else result).
Proof.
  apply (preview_image_is_present sampleHistory samplePreview);
    [exact samplePreview_calm | reflexivity].
Defined.

(** X16.  In a session without clicks on leaving views, a download
    happens exactly where the preview view is rendered, and what is
    downloaded is the painting of the last fulfilled transformation, under
    the name made from the instant of the click. *)
Theorem download_is_the_last_painting history s now :
  calm history s ->
  (previewRendered (model s) = true <-> downloadImage now (model s) <> None) /\
  (forall url name,
      downloadImage now (model s) = Some (url, name) ->
      state (model s) = preview /\ name = downloadName now /\
      exists img, lastFulfilled history = Some (img, url)).
Proof.
  intros Hcalm. apply invariant_calm in Hcalm.
  unfold invariant in Hcalm. cbv zeta in Hcalm.
  unfold previewRendered, isState, downloadImage, truthyOpt.
  destruct (state (model s)).
  - destruct Hcalm as [_ ->]. split; [split; [discriminate|congruence]|discriminate].
  - destruct Hcalm as [_ ->]. split; [split; [discriminate|congruence]|discriminate].
  - destruct Hcalm as (img & _ & _ & _ & -> & _).
    split; [split; [discriminate|congruence]|discriminate].
  - destruct Hcalm as (_ & _ & img & result & _ & -> & _ & Hful).
    cbn [andb]. destruct (truthy result).
    + split; [split; [discriminate|reflexivity]|].
      intros url name [= <- <-]. repeat split. now exists img.
    + split; [split; [discriminate|congruence]|discriminate].
Qed.

Lemma download_is_the_last_painting_witness :
  (previewRendered (model samplePreview) = true
   <-> downloadImage 1730505600000 (model samplePreview) <> None) /\
  (forall url name,
      downloadImage 1730505600000 (model samplePreview) = Some (url, name) ->
      state (model samplePreview) = preview /\ name = downloadName 1730505600000 /\
      exists img, lastFulfilled sampleHistory = Some (img, url)).
Proof.
  apply (download_is_the_last_painting sampleHistory samplePreview).
  exact samplePreview_calm.
Defined.

Lemma length_append (a b : string) :
  String.length (a ++ b) = (String.length a + String.length b)%nat.
Proof.
  induction a as [|c a IH]; [reflexivity|].
  change (String c a ++ b) with (String c (a ++ b)).
  cbn [String.length]. now rewrite IH.
Qed.

Lemma append_cancel_r (a b tail : string) : a ++ tail = b ++ tail -> a = b.
Proof.
  revert b. induction a as [|c a IH]; intros [|c' b] H.
  - reflexivity.
  - apply (f_equal String.length) in H. rewrite !length_append in H. cbn in H. lia.
  - apply (f_equal String.length) in H. rewrite !length_append in H. cbn in H. lia.
  - cbn in H. injection H as -> H. f_equal. now apply IH.
Qed.

Lemma decimal_inj a b : decimal a = decimal b -> a = b.
Proof.
  unfold decimal. intros H.
  apply (f_equal DecimalString.NilEmpty.uint_of_string) in H.
  rewrite !DecimalString.NilEmpty.usu in H. injection H as H.
  now apply DecimalN.Unsigned.to_uint_inj.
Qed.

(** X17.  Downloads made at different instants get different file
    names. *)
Theorem download_names_are_distinct a b :
  downloadName a = downloadName b -> a = b.
Proof.
  unfold downloadName. intros H.
  change ("watercolor-" ++ decimal a ++ ".png")
    with ("watercolor-" ++ (decimal a ++ ".png")) in H.
  cbn [append] in H. injection H as H.
  apply decimal_inj. now apply (append_cancel_r _ _ ".png").
Qed.

Lemma download_names_are_distinct_witness : (1730505600000 = 1730505600000)%N.
Proof. apply download_names_are_distinct. reflexivity. Defined.

Example download_name_sample :
  downloadName 1730505600000 = "watercolor-1730505600000.png".
Proof. vm_compute. reflexivity. Qed.

(** X18.  Sharing never fails towards its caller, whatever the fetch and
    the native share do.  Nothing happens without a transformed image; the
    notice is shown only where the platform cannot share, and the native
    share is used only where it can and after the image was fetched. *)
Theorem shareImage_never_rejects p m :
  (forall err, fst (shareImage p m) <> Rejected err) /\
  (truthyOpt (transformedImage m) = false -> shareImage p m = (Fulfilled tt, [])) /\
  (forall msg, In (Alert msg) (snd (shareImage p m)) -> share p = None) /\
  (forall file title caption,
      In (NativeShare file title caption) (snd (shareImage p m)) ->
      share p <> None /\
      exists url, transformedImage m = Some url /\ fetchBlob p url = Fulfilled tt).
Proof.
  unfold shareImage, truthyOpt.
  destruct (transformedImage m) as [url|] eqn:Himg;
    [destruct (truthy url) eqn:Htruthy|];
    [|repeat split; cbn [fst snd In] in *; intros; try discriminate; contradiction ..].
  destruct (fetchBlob p url) as [[]|err|] eqn:Hfetch;
    [destruct (share p) as [[[]|err|]|] eqn:Hshare| |];
    cbn [fst snd]; (split; [discriminate|]); (split; [discriminate|]);
    (split; [intros msg Hin | intros file title caption Hin]);
    cbn [In app] in Hin;
    repeat match goal with
           | H : _ \/ _ |- _ => destruct H
           | H : False |- _ => destruct H
           | H : @eq ShareEffect _ _ |- _ => try discriminate H; clear H
           end;
    try reflexivity;
    (split; [discriminate | exists url; split; [reflexivity | exact Hfetch]]).
Qed.

End AppMore.

(* ================================================================== *)
(** * More on the capture surface: streams over whole runs *)
(* ================================================================== *)

Module CameraMore.
Import Camera.

Lemma stopStream_live seen hw h id :
  id ∈ live (stopStream seen hw h).1 <-> id ∈ live hw /\ seen <> Some id.
Proof.
  unfold stopStream. destruct seen as [old|]; cbn.
  - rewrite elem_of_difference, elem_of_singleton. split.
    + intros [Hin Hne]. split; [exact Hin|congruence].
    + intros [Hin Hne]. split; [exact Hin|congruence].
  - split; [intros Hin; split; [exact Hin|discriminate] | tauto].
Qed.

Lemma stopStream_fresh seen hw h : fresh (stopStream seen hw h).1 = fresh hw.
Proof. unfold stopStream. now destruct seen. Qed.

Lemma stopStream_hooks seen hw h :
  let h' := (stopStream seen hw h).2 in
  isFlashOn h' = isFlashOn h /\ facingMode h' = facingMode h /\
  error h' = error h /\
  (stream h' = stream h \/ stream h' = None).
Proof. unfold stopStream. destruct seen; cbn; auto. Qed.

(** What a run of the effect does to the hardware, the requests and the
    instance. *)
Lemma runEffect_spec previous inst hw reqs :
  let r := runEffect previous inst hw reqs in
  (forall id, id ∈ live r.1.1 ->
              id ∈ live hw /\ stream (hooks inst) <> Some id /\
              previous <> Some (Some id)) /\
  fresh r.1.1 = fresh hw /\
  r.2 = (if isActive inst
         then (reqs ++ [(key inst, facingMode (hooks inst))])%list else reqs) /\
  key r.1.2 = key inst /\ isActive r.1.2 = isActive inst /\
  cleanup r.1.2 = stream (hooks inst) /\
  isFlashOn (hooks r.1.2) = isFlashOn (hooks inst) /\
  (stream (hooks r.1.2) = stream (hooks inst) \/ stream (hooks r.1.2) = None) /\
  (isActive inst = true -> error (hooks r.1.2) = None).
Proof.
  cbv zeta. unfold runEffect, startCamera_start.
  set (seen := stream (hooks inst)).
  destruct previous as [before|].
  - pose proof (stopStream_live before hw (hooks inst)) as L0.
    pose proof (stopStream_fresh before hw (hooks inst)) as F0.
    pose proof (stopStream_hooks before hw (hooks inst)) as K0. cbv zeta in K0.
    destruct (stopStream before hw (hooks inst)) as [hw0 h0]. cbn [fst snd] in *.
    pose proof (stopStream_live seen hw0 h0) as L1.
    pose proof (stopStream_fresh seen hw0 h0) as F1.
    pose proof (stopStream_hooks seen hw0 h0) as K1. cbv zeta in K1.
    destruct (stopStream seen hw0 h0) as [hw1 h1]. cbn [fst snd] in *.
    destruct K0 as (Kf0 & Km0 & Ke0 & Ks0). destruct K1 as (Kf1 & Km1 & Ke1 & Ks1).
    assert (Hs : stream h1 = seen \/ stream h1 = None).
    { destruct Ks1 as [-> | ->]; [|now right]. destruct Ks0 as [-> | ->]; auto. }
    destruct (isActive inst);
      cbn [fst snd hooks key isActive cleanup setError isFlashOn stream error facingMode];
      (split; [intros id Hid; apply L1 in Hid as [Hid Hne]; apply L0 in Hid as [Hid Hne0];
               repeat split; [exact Hid|exact Hne|congruence]|]);
      repeat split; try congruence; try exact Hs.
  - pose proof (stopStream_live seen hw (hooks inst)) as L1.
    pose proof (stopStream_fresh seen hw (hooks inst)) as F1.
    pose proof (stopStream_hooks seen hw (hooks inst)) as K1. cbv zeta in K1.
    destruct (stopStream seen hw (hooks inst)) as [hw1 h1]. cbn [fst snd] in *.
    destruct K1 as (Kf1 & Km1 & Ke1 & Ks1).
    destruct (isActive inst);
      cbn [fst snd hooks key isActive cleanup setError isFlashOn stream error facingMode];
      (split; [intros id Hid; apply L1 in Hid as [Hid Hne];
               repeat split; [exact Hid|exact Hne|discriminate]|]);
      repeat split; try congruence; try exact Ks1.
Qed.

Lemma tidy_after_effect previous inst hw :
  (forall id, id ∈ live hw -> stream (hooks inst) = Some id) ->
  let r := runEffect previous inst hw [] in
  (r.2 = [] /\ forall id, id ∈ live r.1.1 -> stream (hooks r.1.2) = Some id)
  \/ (exists mode, r.2 = [(key r.1.2, mode)] /\ forall id, id ∉ live r.1.1).
Proof.
  intros Hheld. cbv zeta.
  pose proof (runEffect_spec previous inst hw []) as R. cbv zeta in R.
  destruct (runEffect previous inst hw []) as [[hw1 inst1] reqs1]. cbn [fst snd] in *.
  destruct R as (Hlive & _ & Hreqs & Hkey & _).
  assert (Hnone : forall id, id ∉ live hw1).
  { intros id Hid. apply Hlive in Hid as (Hid & Hne & _). apply Hheld in Hid. congruence. }
  destruct (isActive inst).
  - right. exists (facingMode (hooks inst)). rewrite Hkey. split; [exact Hreqs|exact Hnone].
  - left. split; [exact Hreqs|]. intros id Hid. now apply Hnone in Hid.
Qed.

Lemma tidy_step ev s s' :
  tidy s -> isUnmount ev = false ->
  settles ev = true \/ requests s = [] ->
  step ev s = Some s' -> tidy s'.
Proof.
  intros Ht Hu Hq Hstep. unfold tidy in Ht. unfold step in Hstep.
  destruct ev; try discriminate Hu.
  - (* Mount *)
    destruct (mounted s); [discriminate|]. destruct Ht as [Hreq Hnone].
    rewrite Hreq in Hstep.
    match type of Hstep with
    | context [runEffect ?a ?b ?c []] =>
        pose proof (tidy_after_effect a b c) as T; cbv zeta in T;
        destruct (runEffect a b c []) as [[hw1 inst1] reqs1]
    end.
    injection Hstep as <-. unfold tidy. cbn [mounted requests hardware fst snd] in *.
    apply T. intros id Hid. now apply Hnone in Hid.
  - (* SetActive *)
    destruct Hq as [Hq|Hq]; [discriminate|].
    destruct (mounted s) as [inst|] eqn:Hm; [|discriminate].
    destruct Ht as [[_ Hheld] | (mode & Hreq & _)]; [|congruence].
    destruct (Bool.eqb active (isActive inst)).
    { injection Hstep as <-. unfold tidy. rewrite Hm. left. now split. }
    rewrite Hq in Hstep.
    match type of Hstep with
    | context [runEffect ?a ?b ?c []] =>
        pose proof (tidy_after_effect a b c) as T; cbv zeta in T;
        destruct (runEffect a b c []) as [[hw1 inst1] reqs1]
    end.
    injection Hstep as <-. unfold tidy. cbn [mounted requests hardware withInstance fst snd] in *.
    apply T. exact Hheld.
  - (* SwitchCamera *)
    destruct Hq as [Hq|Hq]; [discriminate|].
    destruct (mounted s) as [inst|] eqn:Hm; [|discriminate].
    destruct Ht as [[_ Hheld] | (mode & Hreq & _)]; [|congruence].
    destruct (isSome (error (hooks inst))); [discriminate|].
    rewrite Hq in Hstep.
    match type of Hstep with
    | context [runEffect ?a ?b ?c []] =>
        pose proof (tidy_after_effect a b c) as T; cbv zeta in T;
        destruct (runEffect a b c []) as [[hw1 inst1] reqs1]
    end.
    injection Hstep as <-. unfold tidy. cbn [mounted requests hardware withInstance fst snd] in *.
    apply T. exact Hheld.
  - (* TryAgain *)
    destruct Hq as [Hq|Hq]; [discriminate|].
    destruct (mounted s) as [inst|] eqn:Hm; [|discriminate].
    destruct Ht as [[_ Hheld] | (mode & Hreq & _)]; [|congruence].
    destruct (isSome (error (hooks inst))); [|discriminate].
    unfold startCamera_start in Hstep. rewrite Hq in Hstep.
    pose proof (stopStream_live (stream (hooks inst)) (hardware s) (hooks inst)) as L.
    destruct (stopStream (stream (hooks inst)) (hardware s) (hooks inst)) as [hw1 h1].
    injection Hstep as <-. unfold tidy. cbn [mounted requests hardware withInstance key fst snd app] in *.
    right. exists (facingMode (hooks inst)). split; [reflexivity|].
    intros id Hid. apply L in Hid as [Hid Hne]. apply Hheld in Hid. congruence.
  - (* Granted *)
    destruct (requests s) as [|[k mode] rest] eqn:Hreq.
    { destruct (mounted s); discriminate. }
    destruct (mounted s) as [inst|] eqn:Hm.
    + destruct Ht as [[Hnil _] | (mode' & Hone & Hnone)]; [discriminate|].
      injection Hone as -> _ ->.
      injection Hstep as <-. unfold tidy.
      cbn [mounted requests hardware updateHooks live]. rewrite Nat.eqb_refl.
      left. split; [reflexivity|]. intros id Hid. cbn [hooks setHasFlash setStream stream].
      apply elem_of_union in Hid as [Hid|Hid].
      * apply elem_of_singleton in Hid. now subst id.
      * now apply Hnone in Hid.
    + destruct Ht as [Hnil _]. discriminate.
  - (* Refused *)
    destruct (requests s) as [|[k mode] rest] eqn:Hreq.
    { destruct (mounted s); discriminate. }
    destruct (mounted s) as [inst|] eqn:Hm.
    + destruct Ht as [[Hnil _] | (mode' & Hone & Hnone)]; [discriminate|].
      injection Hone as -> _ ->.
      injection Hstep as <-. unfold tidy.
      cbn [mounted requests hardware updateHooks live]. rewrite Nat.eqb_refl.
      left. split; [reflexivity|]. intros id Hid. now apply Hnone in Hid.
    + destruct Ht as [Hnil _]. discriminate.
Qed.

Lemma sequential_tidy events : forall s,
  tidy s -> sequential events s = true ->
  exists s', run events s = Some s' /\ tidy s'.
Proof.
  induction events as [|ev later IH]; intros s Ht Hseq.
  - exists s. now split.
  - cbn [sequential] in Hseq.
    apply andb_true_iff in Hseq as [Hguard Hrest].
    apply andb_true_iff in Hguard as [Hu Hq].
    apply negb_true_iff in Hu.
    cbn [run]. destruct (step ev s) as [s1|] eqn:Hstep; [|discriminate].
    apply (IH s1); [|exact Hrest].
    apply (tidy_step ev s s1 Ht Hu); [|exact Hstep].
    apply orb_true_iff in Hq as [Hq|Hq]; [now left|right].
    unfold noRequest in Hq. now destruct (requests s).
Qed.

(** X19.  Within one mount, as long as every camera request is settled
    before the next user action, the discipline holds: at most one stream
    is live, and it is the one the component holds. *)
Theorem sequential_runs_keep_one_stream events :
  sequential events start = true ->
  exists s,
    run events start = Some s /\
    (size (live (hardware s)) <= 1)%nat /\
    forall id, id ∈ live (hardware s) ->
               exists inst, mounted s = Some inst /\ stream (hooks inst) = Some id.
Proof.
  intros Hseq.
  destruct (sequential_tidy events start) as (s & Hrun & Ht); [|exact Hseq|].
  { unfold tidy. cbn. split; [reflexivity|]. intros id. apply not_elem_of_empty. }
  exists s. split; [exact Hrun|].
  assert (Hheld : forall id, id ∈ live (hardware s) ->
                             exists inst, mounted s = Some inst /\ stream (hooks inst) = Some id).
  { intros id Hid. unfold tidy in Ht. destruct (mounted s) as [inst|].
    - destruct Ht as [[_ Hh] | (mode & _ & Hnone)].
      + exists inst. split; [reflexivity|]. now apply Hh.
      + now apply Hnone in Hid.
    - destruct Ht as [_ Hnone]. now apply Hnone in Hid. }
  split; [|exact Hheld].
  destruct (set_choose_or_empty (live (hardware s))) as [[x Hx]|Hempty].
  - assert (Hsub : live (hardware s) ⊆ {[ x ]}).
    { intros y Hy. apply elem_of_singleton.
      destruct (Hheld x Hx) as (i & Hi & Hsx). destruct (Hheld y Hy) as (j & Hj & Hsy).
      congruence. }
    apply subseteq_size in Hsub. rewrite size_singleton in Hsub. exact Hsub.
  - apply size_empty_iff in Hempty. rewrite Hempty. lia.
Qed.

Lemma sequential_runs_keep_one_stream_witness :
  exists s,
    run [Mount true; Granted false; SwitchCamera; Refused "NotFoundError"; TryAgain;
         Granted true; SetActive false; SetActive true; Granted true] start = Some s /\
    (size (live (hardware s)) <= 1)%nat /\
    forall id, id ∈ live (hardware s) ->
               exists inst, mounted s = Some inst /\ stream (hooks inst) = Some id.
Proof.
  apply sequential_runs_keep_one_stream. vm_compute. reflexivity.
Defined.

(** X20.  No lifecycle event touches the flash flag: switching cameras,
    a granted or refused request, a retry or an activation change leave
    [isFlashOn] as it was, also when the stream it was set on is gone. *)
Theorem lifecycle_keeps_flash_flag ev s s' inst inst' :
  step ev s = Some s' ->
  mounted s = Some inst -> mounted s' = Some inst' ->
  isFlashOn (hooks inst') = isFlashOn (hooks inst).
Proof.
  intros Hstep Hm Hm'. unfold step in Hstep. rewrite Hm in Hstep.
  destruct ev.
  - discriminate.
  - destruct (stopStream _ _ _). injection Hstep as <-. discriminate.
  - destruct (Bool.eqb active (isActive inst)).
    { injection Hstep as <-. congruence. }
    match type of Hstep with
    | context [runEffect ?a ?b ?c ?d] =>
        pose proof (runEffect_spec a b c d) as R; cbv zeta in R;
        destruct (runEffect a b c d) as [[hw1 inst1] reqs1]
    end.
    injection Hstep as <-. cbn in Hm'. injection Hm' as <-.
    destruct R as (_ & _ & _ & _ & _ & _ & Hf & _). exact Hf.
  - destruct (isSome (error (hooks inst))); [discriminate|].
    match type of Hstep with
    | context [runEffect ?a ?b ?c ?d] =>
        pose proof (runEffect_spec a b c d) as R; cbv zeta in R;
        destruct (runEffect a b c d) as [[hw1 inst1] reqs1]
    end.
    injection Hstep as <-. cbn in Hm'. injection Hm' as <-.
    destruct R as (_ & _ & _ & _ & _ & _ & Hf & _). exact Hf.
  - destruct (isSome (error (hooks inst))); [|discriminate].
    unfold startCamera_start in Hstep.
    pose proof (stopStream_hooks (stream (hooks inst)) (hardware s) (hooks inst)) as K.
    cbv zeta in K.
    destruct (stopStream _ _ _) as [hw1 h1]. injection Hstep as <-.
    cbn in Hm'. injection Hm' as <-. cbn. now destruct K.
  - destruct (requests s) as [|[k mode] rest]; [discriminate|].
    injection Hstep as <-. cbn in Hm'.
    destruct (Nat.eqb (key inst) k); injection Hm' as <-; reflexivity.
  - destruct (requests s) as [|[k mode] rest]; [discriminate|].
    injection Hstep as <-. cbn in Hm'.
    destruct (Nat.eqb (key inst) k); injection Hm' as <-; reflexivity.
Qed.

Lemma lifecycle_keeps_flash_flag_witness :
  exists s' inst inst',
    step SwitchCamera sampleShowing = Some s' /\
    mounted sampleShowing = Some inst /\ mounted s' = Some inst' /\
    isFlashOn (hooks inst') = isFlashOn (hooks inst).
Proof.
  eexists _, _, _.
  split; [reflexivity|]. split; [reflexivity|]. split; [reflexivity|].
  apply (lifecycle_keeps_flash_flag SwitchCamera sampleShowing _ _ _
           eq_refl eq_refl eq_refl).
Defined.

(** X21.  Toggling the flash does nothing without a stream and nothing when
    the track refuses the constraint; when it is accepted only the flag
    flips, so two accepted toggles give back the same state. *)
Theorem toggleFlash_flips_only_the_flag applied h :
  (stream h = None -> toggleFlash applied h = h) /\
  toggleFlash false h = h /\
  toggleFlash true (toggleFlash true h) = h /\
  (stream h <> None -> isFlashOn (toggleFlash true h) = negb (isFlashOn h)) /\
  stream (toggleFlash applied h) = stream h /\
  error (toggleFlash applied h) = error h /\
  facingMode (toggleFlash applied h) = facingMode h /\
  hasFlash (toggleFlash applied h) = hasFlash h.
Proof.
  destruct h as [[id|] e m hf fl]; unfold toggleFlash; cbn;
    destruct applied; cbn; rewrite ?negb_involutive;
    repeat split; try reflexivity; try congruence.
Qed.

Lemma orphaned_stopStream id seen hw h :
  id ∈ live hw -> seen <> Some id -> id ∈ live (stopStream seen hw h).1.
Proof. intros Hin Hne. apply stopStream_live. now split. Qed.

Lemma step_effect_keeps_orphan id previous inst hw reqs :
  id ∈ live hw -> stream (hooks inst) <> Some id -> previous <> Some (Some id) ->
  let r := runEffect previous inst hw reqs in
  id ∈ live r.1.1 /\ fresh r.1.1 = fresh hw /\
  stream (hooks r.1.2) <> Some id /\ cleanup r.1.2 <> Some id.
Proof.
  intros Hlive Hs Hp. cbv zeta. unfold runEffect, startCamera_start.
  set (seen := stream (hooks inst)) in *.
  assert (Hp' : match previous with Some before => before <> Some id | None => True end).
  { destruct previous as [before|]; [congruence|exact I]. }
  destruct previous as [before|].
  - pose proof (orphaned_stopStream id before hw (hooks inst) Hlive Hp') as L0.
    pose proof (stopStream_fresh before hw (hooks inst)) as F0.
    pose proof (stopStream_hooks before hw (hooks inst)) as K0. cbv zeta in K0.
    destruct (stopStream before hw (hooks inst)) as [hw0 h0]. cbn [fst snd] in *.
    pose proof (orphaned_stopStream id seen hw0 h0 L0 Hs) as L1.
    pose proof (stopStream_fresh seen hw0 h0) as F1.
    pose proof (stopStream_hooks seen hw0 h0) as K1. cbv zeta in K1.
    destruct (stopStream seen hw0 h0) as [hw1 h1]. cbn [fst snd] in *.
    destruct K0 as (_ & _ & _ & Ks0). destruct K1 as (_ & _ & _ & Ks1).
    assert (Hs1 : stream h1 <> Some id).
    { destruct Ks1 as [-> | ->]; [|discriminate]. destruct Ks0 as [-> | ->]; [exact Hs|discriminate]. }
    destruct (isActive inst); cbn; repeat split; try congruence; assumption.
  - pose proof (orphaned_stopStream id seen hw (hooks inst) Hlive Hs) as L1.
    pose proof (stopStream_fresh seen hw (hooks inst)) as F1.
    pose proof (stopStream_hooks seen hw (hooks inst)) as K1. cbv zeta in K1.
    destruct (stopStream seen hw (hooks inst)) as [hw1 h1]. cbn [fst snd] in *.
    destruct K1 as (_ & _ & _ & Ks1).
    assert (Hs1 : stream h1 <> Some id).
    { destruct Ks1 as [-> | ->]; [exact Hs|discriminate]. }
    destruct (isActive inst); cbn; repeat split; try congruence; assumption.
Qed.

(** An orphaned stream stays orphaned, whatever happens. *)
Lemma orphaned_step id ev s s' :
  orphaned id s -> step ev s = Some s' -> orphaned id s'.
Proof.
  intros (Hlive & Hlt & Hout) Hstep. unfold orphaned. unfold step in Hstep.
  destruct ev.
  - (* Mount *)
    destruct (mounted s); [discriminate|].
    match type of Hstep with
    | context [runEffect ?a ?b ?c ?d] =>
        pose proof (runEffect_spec a b c d) as R; cbv zeta in R;
        unfold runEffect, startCamera_start in Hstep, R; cbn in Hstep, R
    end.
    destruct active; cbn in Hstep; injection Hstep as <-; cbn;
      repeat split; auto; discriminate.
  - (* Unmount *)
    destruct (mounted s) as [inst|]; [|discriminate]. destruct Hout as [_ Hc].
    pose proof (orphaned_stopStream id (cleanup inst) (hardware s) (hooks inst) Hlive Hc) as L.
    pose proof (stopStream_fresh (cleanup inst) (hardware s) (hooks inst)) as F.
    destruct (stopStream _ _ _) as [hw1 h1]. injection Hstep as <-. cbn in *.
    repeat split; [exact L|lia].
  - (* SetActive *)
    destruct (mounted s) as [inst|] eqn:Hm; [|discriminate]. destruct Hout as [Hs Hc].
    destruct (Bool.eqb active (isActive inst)).
    { injection Hstep as <-. rewrite Hm. now repeat split. }
    pose proof (step_effect_keeps_orphan id (Some (cleanup inst))
                  {| hooks := hooks inst; isActive := active;
                     cleanup := cleanup inst; key := key inst |}
                  (hardware s) (requests s) Hlive Hs ltac:(congruence)) as E.
    cbv zeta in E. destruct (runEffect _ _ _ _) as [[hw1 inst1] reqs1].
    injection Hstep as <-. cbn in *. destruct E as (E1 & E2 & E3 & E4).
    repeat split; [exact E1|lia|exact E3|exact E4].
  - (* SwitchCamera *)
    destruct (mounted s) as [inst|] eqn:Hm; [|discriminate]. destruct Hout as [Hs Hc].
    destruct (isSome (error (hooks inst))); [discriminate|].
    pose proof (step_effect_keeps_orphan id (Some (cleanup inst))
                  {| hooks := setFacingMode (toggle (facingMode (hooks inst))) (hooks inst);
                     isActive := isActive inst;
                     cleanup := cleanup inst; key := key inst |}
                  (hardware s) (requests s) Hlive Hs ltac:(congruence)) as E.
    cbv zeta in E. destruct (runEffect _ _ _ _) as [[hw1 inst1] reqs1].
    injection Hstep as <-. cbn in *. destruct E as (E1 & E2 & E3 & E4).
    repeat split; [exact E1|lia|exact E3|exact E4].
  - (* TryAgain *)
    destruct (mounted s) as [inst|] eqn:Hm; [|discriminate]. destruct Hout as [Hs Hc].
    destruct (isSome (error (hooks inst))); [|discriminate].
    unfold startCamera_start in Hstep.
    pose proof (orphaned_stopStream id (stream (hooks inst)) (hardware s) (hooks inst) Hlive Hs) as L.
    pose proof (stopStream_fresh (stream (hooks inst)) (hardware s) (hooks inst)) as F.
    pose proof (stopStream_hooks (stream (hooks inst)) (hardware s) (hooks inst)) as K.
    cbv zeta in K.
    destruct (stopStream _ _ _) as [hw1 h1]. injection Hstep as <-. cbn in *.
    destruct K as (_ & _ & _ & Ks).
    repeat split; [exact L|lia| |exact Hc].
    destruct Ks as [-> | ->]; [exact Hs|discriminate].
  - (* Granted *)
    destruct (requests s) as [|[k mode] rest]; [destruct (mounted s); discriminate|].
    assert (Hstep' : s' = {| hardware := {| live := {[fresh (hardware s)]} ∪ live (hardware s);
                                            fresh := S (fresh (hardware s)) |};
                             mounted := updateHooks k (fun h => setHasFlash torch
                                                         (setStream (Some (fresh (hardware s))) h))
                                                    (mounted s);
                             mounts := mounts s; requests := rest |})
      by (destruct (mounted s); now injection Hstep as <-).
    subst s'. cbn [hardware live fresh mounted].
    split; [apply elem_of_union; now right|]. split; [lia|].
    destruct (mounted s) as [inst|]; cbn [updateHooks]; [|exact I].
    destruct Hout as [Hs Hc].
    destruct (Nat.eqb (key inst) k); cbn; [|now split].
    split; [|exact Hc]. intros [= Heq]. lia.
  - (* Refused *)
    destruct (requests s) as [|[k mode] rest]; [destruct (mounted s); discriminate|].
    assert (Hstep' : s' = {| hardware := hardware s;
                             mounted := updateHooks k (setError (Some (errorFor name))) (mounted s);
                             mounts := mounts s; requests := rest |})
      by (destruct (mounted s); now injection Hstep as <-).
    subst s'. cbn [hardware live fresh mounted].
    split; [exact Hlive|]. split; [exact Hlt|].
    destruct (mounted s) as [inst|]; cbn [updateHooks]; [|exact I].
    destruct (Nat.eqb (key inst) k); cbn; exact Hout.
Qed.

Lemma orphaned_run id events : forall s s',
  orphaned id s -> run events s = Some s' -> orphaned id s'.
Proof.
  induction events as [|ev later IH]; intros s s' Ho Hrun; cbn [run] in Hrun.
  - now injection Hrun as <-.
  - destruct (step ev s) as [s1|] eqn:Hstep; [|discriminate].
    apply (IH s1 s'); [|exact Hrun]. exact (orphaned_step id ev s s1 Ho Hstep).
Qed.

Lemma allocated_step ev s s' : allocated s -> step ev s = Some s' -> allocated s'.
Proof.
  intros Ha Hstep. unfold allocated in *. unfold step in Hstep.
  destruct ev.
  - (* Mount *)
    destruct (mounted s); [discriminate|].
    match type of Hstep with
    | context [runEffect ?a ?b ?c ?d] =>
        pose proof (runEffect_spec a b c d) as R; cbv zeta in R;
        destruct (runEffect a b c d) as [[hw1 inst1] reqs1]
    end.
    injection Hstep as <-. cbn in *.
    destruct R as (_ & _ & _ & _ & _ & Rc & _ & Rs & _).
    split; intros id Hid; [destruct Rs as [Rs|Rs]|]; congruence.
  - (* Unmount *)
    destruct (mounted s) as [inst|]; [|discriminate].
    destruct (stopStream _ _ _) as [hw1 h1]. now injection Hstep as <-.
  - (* SetActive *)
    destruct (mounted s) as [inst|] eqn:Hm; [|discriminate]. destruct Ha as [Hs Hc].
    destruct (Bool.eqb active (isActive inst)).
    { injection Hstep as <-. rewrite Hm. now split. }
    match type of Hstep with
    | context [runEffect ?a ?b ?c ?d] =>
        pose proof (runEffect_spec a b c d) as R; cbv zeta in R;
        destruct (runEffect a b c d) as [[hw1 inst1] reqs1]
    end.
    injection Hstep as <-. cbn in *.
    destruct R as (_ & Rf & _ & _ & _ & Rc & _ & Rs & _). rewrite Rf.
    split; intros id Hid.
    + destruct Rs as [Rs|Rs]; [apply Hs|]; congruence.
    + apply Hs. congruence.
  - (* SwitchCamera *)
    destruct (mounted s) as [inst|] eqn:Hm; [|discriminate]. destruct Ha as [Hs Hc].
    destruct (isSome (error (hooks inst))); [discriminate|].
    match type of Hstep with
    | context [runEffect ?a ?b ?c ?d] =>
        pose proof (runEffect_spec a b c d) as R; cbv zeta in R;
        destruct (runEffect a b c d) as [[hw1 inst1] reqs1]
    end.
    injection Hstep as <-. cbn in *.
    destruct R as (_ & Rf & _ & _ & _ & Rc & _ & Rs & _). rewrite Rf.
    split; intros id Hid.
    + destruct Rs as [Rs|Rs]; [apply Hs|]; congruence.
    + apply Hs. congruence.
  - (* TryAgain *)
    destruct (mounted s) as [inst|] eqn:Hm; [|discriminate]. destruct Ha as [Hs Hc].
    destruct (isSome (error (hooks inst))); [|discriminate].
    unfold startCamera_start in Hstep.
    pose proof (stopStream_fresh (stream (hooks inst)) (hardware s) (hooks inst)) as F.
    pose proof (stopStream_hooks (stream (hooks inst)) (hardware s) (hooks inst)) as K.
    cbv zeta in K.
    destruct (stopStream _ _ _) as [hw1 h1]. injection Hstep as <-. cbn in *.
    destruct K as (_ & _ & _ & Ks). rewrite F.
    split; [|exact Hc]. intros id Hid.
    destruct Ks as [Ks|Ks]; [apply Hs|]; congruence.
  - (* Granted *)
    destruct (requests s) as [|[k mode] rest]; [destruct (mounted s); discriminate|].
    assert (Hstep' : s' = {| hardware := {| live := {[fresh (hardware s)]} ∪ live (hardware s);
                                            fresh := S (fresh (hardware s)) |};
                             mounted := updateHooks k (fun h => setHasFlash torch
                                                         (setStream (Some (fresh (hardware s))) h))
                                                    (mounted s);
                             mounts := mounts s; requests := rest |})
      by (destruct (mounted s); now injection Hstep as <-).
    subst s'. cbn [hardware live fresh mounted].
    destruct (mounted s) as [inst|]; cbn [updateHooks]; [|exact I].
    destruct Ha as [Hs Hc].
    destruct (Nat.eqb (key inst) k); cbn; split; intros id Hid.
    + injection Hid as <-. lia.
    + specialize (Hc id Hid). lia.
    + specialize (Hs id Hid). lia.
    + specialize (Hc id Hid). lia.
  - (* Refused *)
    destruct (requests s) as [|[k mode] rest]; [destruct (mounted s); discriminate|].
    assert (Hstep' : s' = {| hardware := hardware s;
                             mounted := updateHooks k (setError (Some (errorFor name))) (mounted s);
                             mounts := mounts s; requests := rest |})
      by (destruct (mounted s); now injection Hstep as <-).
    subst s'. cbn [hardware live fresh mounted].
    destruct (mounted s) as [inst|]; cbn [updateHooks]; [|exact I].
    destruct (Nat.eqb (key inst) k); cbn; exact Ha.
Qed.

Lemma allocated_run events : forall s s',
  allocated s -> run events s = Some s' -> allocated s'.
Proof.
  induction events as [|ev later IH]; intros s s' Ha Hrun; cbn [run] in Hrun.
  - now injection Hrun as <-.
  - destruct (step ev s) as [s1|] eqn:Hstep; [|discriminate].
    apply (IH s1 s'); [|exact Hrun]. exact (allocated_step ev s s1 Ha Hstep).
Qed.

(** X22.  A camera request whose component is no longer mounted when it is
    granted (the component was unmounted meanwhile, whether or not another
    one has been mounted since) opens the camera all the same, and the
    stream it yields is never stopped, whatever happens afterwards: mounts,
    switches and unmounts only stop streams a component has held. *)
Theorem stream_granted_after_unmount_is_never_stopped
        before s k mode rest torch s1 events s2 :
  run before start = Some s ->
  requests s = (k, mode) :: rest ->
  (forall inst, mounted s = Some inst -> key inst <> k) ->
  step (Granted torch) s = Some s1 ->
  run events s1 = Some s2 ->
  fresh (hardware s) ∈ live (hardware s2).
Proof.
  intros Hbefore Hreq Hgone Hstep Hrun.
  assert (Ha : allocated s) by (apply (allocated_run before start s); [exact I|exact Hbefore]).
  assert (Ho : orphaned (fresh (hardware s)) s1).
  { unfold step in Hstep. rewrite Hreq in Hstep.
    assert (Hs1 : s1 = {| hardware := {| live := {[fresh (hardware s)]} ∪ live (hardware s);
                                         fresh := S (fresh (hardware s)) |};
                          mounted := updateHooks k (fun h => setHasFlash torch
                                                      (setStream (Some (fresh (hardware s))) h))
                                                 (mounted s);
                          mounts := mounts s; requests := rest |})
      by (destruct (mounted s); now injection Hstep as <-).
    subst s1. unfold orphaned, allocated in *. cbn [hardware live fresh mounted].
    split; [apply elem_of_union; left; now apply elem_of_singleton|]. split; [lia|].
    destruct (mounted s) as [inst|]; cbn [updateHooks]; [|exact I].
    destruct Ha as [Hs Hc].
    destruct (Nat.eqb_spec (key inst) k) as [Heq|Hne]; [now destruct (Hgone inst eq_refl)|].
    split; intros Hid; [apply Hs in Hid | apply Hc in Hid]; lia. }
  now destruct (orphaned_run _ events s1 s2 Ho Hrun).
Qed.

Lemma stream_granted_after_unmount_is_never_stopped_witness :
  exists s2,
    run [Granted false; Granted true; SwitchCamera; Granted true; Unmount]
        sampleRemounted = Some s2 /\
    fresh (hardware sampleRemounted) ∈ live (hardware s2).
Proof.
  eexists. split; cycle 1.
  - eapply (stream_granted_after_unmount_is_never_stopped
              [Mount true; Unmount; Mount true] sampleRemounted 0%nat environment
              [(1%nat, environment)] false _
              [Granted true; SwitchCamera; Granted true; Unmount]);
      [vm_compute; reflexivity | reflexivity | intros inst [= <-]; discriminate
       | vm_compute; reflexivity | vm_compute; reflexivity].
  - vm_compute. reflexivity.
Defined.

(** X23.  A stream that is live at unmount and is not the one the registered
    cleanup has seen survives the unmount and is never stopped afterwards. *)
Theorem stream_missed_at_unmount_is_never_stopped s inst id s1 events s2 :
  mounted s = Some inst ->
  id ∈ live (hardware s) ->
  (id < fresh (hardware s))%nat ->
  cleanup inst <> Some id ->
  step Unmount s = Some s1 ->
  run events s1 = Some s2 ->
  id ∈ live (hardware s2).
Proof.
  intros Hm Hlive Hlt Hc Hstep Hrun.
  assert (Ho : orphaned id s1).
  { unfold step in Hstep. rewrite Hm in Hstep.
    pose proof (orphaned_stopStream id (cleanup inst) (hardware s) (hooks inst) Hlive Hc) as L.
    pose proof (stopStream_fresh (cleanup inst) (hardware s) (hooks inst)) as F.
    destruct (stopStream _ _ _) as [hw1 h1]. injection Hstep as <-.
    unfold orphaned. cbn in *. split; [exact L|]. split; [lia|exact I]. }
  now destruct (orphaned_run _ events s1 s2 Ho Hrun).
Qed.

Lemma stream_missed_at_unmount_is_never_stopped_witness :
  0%nat ∈ live (hardware {| hardware := {| live := ({[ 1%nat ]} ∪ {[ 0%nat ]}) ∖ {[ 1%nat ]};
                                           fresh := 2 |};
                            mounted := None; mounts := 2; requests := [(1%nat, user)] |}).
Proof.
  eapply (stream_missed_at_unmount_is_never_stopped sampleShowing _ 0%nat _
            [Mount true; Granted true; SwitchCamera; Unmount]);
    [reflexivity | vm_compute; tauto | vm_compute; lia | discriminate
     | vm_compute; reflexivity | vm_compute; reflexivity].
Defined.

(** X24.  A refused request leaves the hardware as it was and shows an
    error; while it is shown the camera cannot be switched, and Try Again
    clears it and asks again, for the component's facing mode, without any
    stream being opened in between. *)
Theorem refusal_can_be_retried s inst mode name :
  mounted s = Some inst ->
  requests s = [(key inst, mode)] ->
  exists s1 inst1 s2 inst2,
    step (Refused name) s = Some s1 /\ mounted s1 = Some inst1 /\
    hardware s1 = hardware s /\
    error (hooks inst1) = Some (errorFor name) /\
    step SwitchCamera s1 = None /\
    step TryAgain s1 = Some s2 /\ mounted s2 = Some inst2 /\
    error (hooks inst2) = None /\
    requests s2 = [(key inst, facingMode (hooks inst))] /\
    live (hardware s2) ⊆ live (hardware s) /\
    fresh (hardware s2) = fresh (hardware s).
Proof.
  intros Hm Hreq.
  set (h1 := setError (Some (errorFor name)) (hooks inst)).
  set (inst1 := {| hooks := h1; isActive := isActive inst;
                   cleanup := cleanup inst; key := key inst |}).
  set (s1 := {| hardware := hardware s; mounted := Some inst1;
                mounts := mounts s; requests := [] |}).
  pose proof (stopStream_live (stream (hooks inst)) (hardware s) h1) as L.
  pose proof (stopStream_fresh (stream (hooks inst)) (hardware s) h1) as F.
  destruct (stopStream (stream (hooks inst)) (hardware s) h1) as [hw2 h2] eqn:Hstop.
  cbn [fst snd] in L, F.
  set (inst2 := {| hooks := setError None h2; isActive := isActive inst;
                   cleanup := cleanup inst; key := key inst |}).
  exists s1, inst1,
    {| hardware := hw2; mounted := Some inst2; mounts := mounts s;
       requests := [(key inst, facingMode (hooks inst))] |}, inst2.
  assert (Hrefused : step (Refused name) s = Some s1).
  { unfold step. rewrite Hm, Hreq. cbn [updateHooks]. now rewrite Nat.eqb_refl. }
  assert (Hretry : step TryAgain s1 =
                   Some {| hardware := hw2; mounted := Some inst2; mounts := mounts s;
                           requests := [(key inst, facingMode (hooks inst))] |}).
  { unfold step, s1, inst1, h1, startCamera_start.
    cbn [mounted hooks setError error isSome stream facingMode hardware requests key isActive cleanup].
    fold h1. rewrite Hstop. reflexivity. }
  split; [exact Hrefused|]. split; [reflexivity|]. split; [reflexivity|].
  split; [reflexivity|]. split; [reflexivity|]. split; [exact Hretry|].
  split; [reflexivity|]. split; [reflexivity|]. split; [reflexivity|].
  split; [|exact F].
  intros id Hid. now apply L in Hid.
Qed.

Lemma refusal_can_be_retried_witness :
  exists s1 inst1 s2 inst2,
    step (Refused "NotAllowedError")
         {| hardware := {| live := ∅; fresh := 0 |};
            mounted := Some {| hooks := initialHooks; isActive := true;
                               cleanup := None; key := 0 |};
            mounts := 1; requests := [(0%nat, environment)] |} = Some s1 /\
    mounted s1 = Some inst1 /\
    hardware s1 = {| live := ∅; fresh := 0 |} /\
    error (hooks inst1) = Some (errorFor "NotAllowedError") /\
    step SwitchCamera s1 = None /\
    step TryAgain s1 = Some s2 /\ mounted s2 = Some inst2 /\
    error (hooks inst2) = None /\
    requests s2 = [(0%nat, environment)] /\
    live (hardware s2) ⊆ ∅ /\
    fresh (hardware s2) = 0%nat.
Proof.
  apply (refusal_can_be_retried
           {| hardware := {| live := ∅; fresh := 0 |};
              mounted := Some {| hooks := initialHooks; isActive := true;
                                 cleanup := None; key := 0 |};
              mounts := 1; requests := [(0%nat, environment)] |}
           {| hooks := initialHooks; isActive := true; cleanup := None; key := 0 |}
           environment "NotAllowedError"); reflexivity.
Defined.

(** X25.  [capturePhoto] does not wait for a frame: while the video has no
    data (zero width or height) it still calls [onCapture], with the
    encoding of a bitmap without a single pixel. *)
Theorem capture_without_frame {Pixel : Type}
        (toDataURL : list (list (option Pixel)) -> string -> Q -> string)
        (video : Video Pixel) (mode : FacingMode) :
  (videoWidth video <= 0 \/ videoHeight video <= 0)%Z ->
  concat (captureBitmap video mode) = [] /\
  capturePhoto toDataURL (Some video) true true mode =
    Some (toDataURL (captureBitmap video mode) "image/jpeg"%string (95 # 100)%Q).
Proof.
  intros Hzero. split; [|reflexivity].
  unfold captureBitmap, drawImage, indices.
  destruct Hzero as [Hw|Hh].
  - replace (Z.to_nat (videoWidth video)) with 0%nat by lia. cbn [seq map].
    induction (seq 0 (Z.to_nat (videoHeight video))) as [|k ks IH]; [reflexivity|].
    cbn [map concat app]. exact IH.
  - replace (Z.to_nat (videoHeight video)) with 0%nat by lia. reflexivity.
Qed.

Lemma capture_without_frame_witness :
  concat (captureBitmap {| videoWidth := 0; videoHeight := 0;
                           frame := fun _ _ => 0%Z |} user) = [] /\
  capturePhoto (fun _ _ _ => "data:,"%string)
               (Some {| videoWidth := 0; videoHeight := 0; frame := fun _ _ => 0%Z |})
               true true user =
    Some ((fun _ _ _ => "data:,"%string)
            (captureBitmap {| videoWidth := 0; videoHeight := 0;
                              frame := fun _ _ => 0%Z |} user)
            "image/jpeg"%string (95 # 100)%Q).
Proof.
  apply (capture_without_frame (fun _ _ _ => "data:,"%string)
           {| videoWidth := 0; videoHeight := 0; frame := fun _ _ => 0%Z |} user).
  left. cbn. lia.
Defined.

End CameraMore.
